(** * Reconciliation of declared configuration against Artifactory

    A shallow embedding of the Ansible collection [jfrog.platform]:

    - [plugins/action/artifactory_repository.py]  (module [ActionModule]),
    - [plugins/module_utils/ArtifactoryApi.py]    (module [ArtifactoryApi]),
    - [plugins/modules/artifactory_ldap_settings.py] (module [ArtifactoryLDAP]).

    Python dictionaries are finite maps from field names to values, Python
    exceptions are an error type, and code that talks to the server or
    mutates a shared object runs in a state-and-error monad. *)

From stdpp Require Import base strings gmap list pretty.

Open Scope string_scope.

(** ** Python values, exceptions and the monad *)

Module Py.

(** Field values.  The payload of a record is opaque to the reconciliation
    code; what it does with a value is: test [is None], call [str] and
    [.lower()], concatenate it to a URL, and compare with [==].  Values are
    restricted to [None], booleans and strings, on which Python's [==] is
    the structural equality (numbers, for which [True == 1], and nested
    containers are left out). *)
Inductive value :=
| VNone
| VBool (b : bool)
| VStr (s : string).

#[global] Instance value_eq_dec : EqDecision value.
Proof. solve_decision. Defined.

(** A [dict] with string keys; [==] on dicts is equality of finite maps. *)
Abbreviation dict := (gmap string value).

Inductive exn :=
| AnsibleOptionsError (msg : string)
| AnsibleActionFail (msg : string)
| KeyError (k : string)
| ValueError
| TypeError
| AttributeError
| FailJson (msg : string).

#[global] Instance exn_eq_dec : EqDecision exn.
Proof. solve_decision. Defined.

(** An argument of a task: absent from the mapping, present with the
    value [None], or present with a proper value. *)
Inductive arg (A : Type) :=
| Absent
| IsNone
| Given (a : A).
Arguments Absent {A}.
Arguments IsNone {A}.
Arguments Given {A} a.

(** [str(v)] *)
Definition str (v : value) : string :=
  match v with
  | VNone => "None"
  | VBool true => "True"
  | VBool false => "False"
  | VStr s => s
  end.

(** [bool(v)] *)
Definition truthy (v : value) : bool :=
  match v with
  | VNone => false
  | VBool b => b
  | VStr s => negb (String.eqb s EmptyString)
  end.

(** A string is a sequence of code points below 256, one per character:
    [É] is the character 201, not the two bytes of an encoding of it
    (text with a code point from 256 on is left out).

    [c.lower()] for one such character: the capital letters are A to Z
    (65 to 90), À to Ö (192 to 214) and Ø to Þ (216 to 222), each 32
    below its small letter; [×] (215), [ß] (223) and every other
    character are their own lower case. *)
Definition lower_char (c : Ascii.ascii) : Ascii.ascii :=
  let n := Ascii.N_of_ascii c in
  if ((65 <=? n) && (n <=? 90) || (192 <=? n) && (n <=? 214) || (216 <=? n) && (n <=? 222))%N
  then Ascii.ascii_of_N (n + 32) else c.

(** [s.lower()] *)
Fixpoint lower (s : string) : string :=
  match s with
  | EmptyString => EmptyString
  | String c s' => String (lower_char c) (lower s')
  end.

(** [sub in s] on strings. *)
Fixpoint contains (sub s : string) : bool :=
  String.prefix sub s ||
  match s with
  | EmptyString => false
  | String _ s' => contains sub s'
  end.

(** Results of pure code that may raise. *)
Definition E (A : Type) : Type := exn + A.

Definition ebind {A B} (m : E A) (k : A → E B) : E B :=
  match m with
  | inl e => inl e
  | inr a => k a
  end.

(** [d[k]] *)
Definition getitem (d : dict) (k : string) : E value :=
  match d !! k with
  | Some v => inr v
  | None => inl (KeyError k)
  end.

(** [v.lower()]: only strings have the method. *)
Definition lower_method (v : value) : E string :=
  match v with
  | VStr s => inr (lower s)
  | _ => inl AttributeError
  end.

(** [s + n] with [s] a string and [n] an [int]: [str] concatenates with
    [str] only. *)
Definition str_add_int (s : string) (n : Z) : E string := inl TypeError.

(** [s + v] with [s] a string: [v] must be a string too. *)
Definition str_add (s : string) (v : value) : E string :=
  match v with
  | VStr t => inr (s ++ t)
  | _ => inl TypeError
  end.

(** [l.remove(x)]: drops the first element that passes the test, raises
    [ValueError] when there is none. *)
Fixpoint remove_first {A} (p : A → bool) (l : list A) : option (list A) :=
  match l with
  | [] => None
  | x :: l' => if p x then Some l' else (x ::.) <$> remove_first p l'
  end.

(** Stateful code: a state [Σ] is threaded, an exception stops the run
    and keeps the state reached. *)
Definition M (Σ A : Type) : Type := Σ → E A * Σ.

Definition ret {Σ A} (a : A) : M Σ A := λ σ, (inr a, σ).
Definition raise {Σ A} (e : exn) : M Σ A := λ σ, (inl e, σ).
Definition lift {Σ A} (r : E A) : M Σ A := λ σ, (r, σ).
Definition bind {Σ A B} (m : M Σ A) (k : A → M Σ B) : M Σ B :=
  λ σ, match m σ with
       | (inl e, σ') => (inl e, σ')
       | (inr a, σ') => k a σ'
       end.
Definition get {Σ} : M Σ Σ := λ σ, (inr σ, σ).
Definition put {Σ} (σ' : Σ) : M Σ unit := λ _, (inr tt, σ').

(** [for x in l: body x] *)
Fixpoint for_each {Σ A} (body : A → M Σ unit) (l : list A) : M Σ unit :=
  match l with
  | [] => ret tt
  | x :: l' => bind (body x) (λ _, for_each body l')
  end.

(** [for x in l: acc = body x acc] *)
Fixpoint for_fold {Σ A B} (body : A → B → M Σ B) (l : list A) (acc : B) : M Σ B :=
  match l with
  | [] => ret acc
  | x :: l' => bind (body x acc) (for_fold body l')
  end.

End Py.

Import Py.

Declare Scope py_scope.
Delimit Scope py_scope with py.
Notation "x <- m ;; k" := (bind m (λ x, k))
  (at level 100, m at next level, right associativity) : py_scope.
Notation "m ;;; k" := (bind m (λ _, k))
  (at level 100, right associativity) : py_scope.
Notation "x <~ m ;; k" := (ebind m (λ x, k))
  (at level 100, m at next level, right associativity) : py_scope.
Open Scope py_scope.

(** ** The action plugin: [plugins/action/artifactory_repository.py] *)

Module ActionModule.

(** [self._task.args].  [state], [auth_type] and [ignore_ca_error] have a
    default in [_PARAM_DEFAULTS]; the other three do not.
    [repository_configs] is taken as a list of dictionaries (the JSON
    string forms of lines 114-120 are not modelled). *)
Record task_args := {
  repository_configs : arg (list dict);
  state : option string;
  artifactory_base_url : arg string;
  auth_type : option string;
  auth_string : arg string;
  ignore_ca_error : option value;
}.

(** [uriParams]: what every call to the [uri] module carries. *)
Record uri_params := {
  headers : dict;
  validate_certs : option string;
}.

(** What lines 107-163 leave for the rest of [run]. *)
Record config := {
  cfg_repository_configs : list dict;
  cfg_state : string;
  cfg_baseUrl : string;
  cfg_uriParams : uri_params;
  cfg_warning : arg (list string);
}.

(** [args[name]] for an argument without default. *)
Definition lookup_arg {A} (name : string) (a : arg A) : E (option A) :=
  match a with
  | Absent => inl (KeyError name)
  | IsNone => inr None
  | Given x => inr (Some x)
  end.

Fixpoint each {A} (f : A → E unit) (l : list A) : E unit :=
  match l with
  | [] => inr tt
  | x :: l' => _ <~ f x;; each f l'
  end.

(** A name between double quotes, as the messages print it. *)
Definition quoted (s : string) : string :=
  String (Ascii.ascii_of_nat 34) (s ++ String (Ascii.ascii_of_nat 34) EmptyString).

Definition required_field_msg (field : string) : string :=
  quoted field ++ " is a required field in " ++ quoted "repository_configs".

(** Lines 121-126, for one [repo]. *)
Definition required_fields (repo : dict) : E unit :=
  k <~ getitem repo "key";;
  if bool_decide (k = VNone)
  then inl (AnsibleOptionsError (required_field_msg "key"))
  else
    p <~ getitem repo "packageType";;
    if bool_decide (p = VNone)
    then inl (AnsibleOptionsError (required_field_msg "packageType"))
    else
      r <~ getitem repo "rclass";;
      if bool_decide (r = VNone)
      then inl (AnsibleOptionsError (required_field_msg "rclass"))
      else inr tt.

Definition unique_key_msg : string :=
  "Repository configurations must have unique " ++ quoted "key" ++ " names".

(** Lines 127-131.  The two index loops visit every pair [repo1 < repo2]
    in lexicographic order, which is the order of this recursion; with
    fewer than two records there is no pair. *)
Fixpoint unique_against (r1 : dict) (rest : list dict) : E unit :=
  match rest with
  | [] => inr tt
  | r2 :: rest' =>
      k1 <~ getitem r1 "key";;
      l1 <~ lower_method k1;;
      k2 <~ getitem r2 "key";;
      l2 <~ lower_method k2;;
      if String.eqb l1 l2
      then inl (AnsibleOptionsError unique_key_msg)
      else unique_against r1 rest'
  end.

Fixpoint unique_keys (configs : list dict) : E unit :=
  match configs with
  | [] => inr tt
  | r1 :: rest => _ <~ unique_against r1 rest;; unique_keys rest
  end.

(** Lines 142-144. *)
Definition normalise_ignore_ca_error (v : value) : bool :=
  let s := lower (str v) in
  let v' := if String.eqb s "false" || String.eqb s "no" then VBool false else v in
  truthy v'.

(** [base64.standard_b64encode] takes a bytes-like object; the plugin
    hands it the [str] argument, which Python 3 rejects. *)
Definition standard_b64encode (s : string) : E string := inl TypeError.

(** Lines 149-156. *)
Definition build_headers (auth_type : string) (auth_string : arg string) : E dict :=
  if String.eqb auth_type "accesstoken" then
    a <~ lookup_arg "auth_string" auth_string;;
    match a with
    | Some s => inr {[ "Authorization" := VStr ("Bearer " ++ s) ]}
    | None => inl TypeError
    end
  else if String.eqb auth_type "apikey" then
    a <~ lookup_arg "auth_string" auth_string;;
    inr {[ "X-JFrog-Art-Api" := from_option VStr VNone a ]}
  else
    a <~ lookup_arg "auth_string" auth_string;;
    match a with
    | Some s => b <~ standard_b64encode s;; inr {[ "Authorization" := VStr ("Basic " ++ b) ]}
    | None => inl TypeError
    end.

Definition ca_warning : string :=
  "API calls to Artifactory are not validating CA certs. Auth tokens vulnerable to MITM attack.".

(** Lines 158-163; [warning] is [result['warning']] of the parent's [run]. *)
Definition cert_validation (ignore : bool) (headers : dict) (warning : arg (list string))
  : E (uri_params * arg (list string)) :=
  if ignore then
    w <~ lookup_arg "warning" warning;;
    inr ({| headers := headers; validate_certs := Some "no" |},
         Given (from_option id [] w ++ [ca_warning])%list)
  else inr ({| headers := headers; validate_certs := None |}, warning).

(** Lines 107-163: defaults, validation, base URL, headers. *)
Definition prepare (args : task_args) (warning : arg (list string)) : E config :=
  rc <~ lookup_arg "repository_configs" (repository_configs args);;
  match rc with
  | None => inl (AnsibleOptionsError (quoted "repository_configs" ++ " is a required argument"))
  | Some configs =>
      _ <~ each required_fields configs;;
      _ <~ unique_keys configs;;
      url <~ lookup_arg "artifactory_base_url" (artifactory_base_url args);;
      match url with
      | None => inl (AnsibleOptionsError (quoted "artifactory_base_url" ++ " is a required argument"))
      | Some base =>
          let st := lower (default "Present" (state args)) in
          if negb (String.eqb st "absent" || String.eqb st "present" || String.eqb st "prune")
          then inl (AnsibleOptionsError
                      (quoted "State" ++ " must be " ++ quoted "Absent" ++ ", "
                         ++ quoted "Present" ++ ", or " ++ quoted "Prune"))
          else
            let at_ := lower (default "Basic" (auth_type args)) in
            if negb (String.eqb at_ "basic" || String.eqb at_ "accesstoken" || String.eqb at_ "apikey")
            then inl (AnsibleOptionsError
                        (quoted "auth_type" ++ " must be " ++ quoted "Basic" ++ ", "
                           ++ quoted "AccessToken" ++ ", or " ++ quoted "ApiKey"))
            else
              _ <~ (if String.eqb at_ "basic" then
                      a <~ lookup_arg "auth_string" (auth_string args);;
                      match a with
                      | None => inl TypeError
                      | Some s =>
                          if negb (contains ":" s)
                          then inl (AnsibleOptionsError
                                      "Basic auth_type requires that username and password be provided in auth_string in the format username:password")
                          else inr tt
                      end
                    else inr tt);;
              let ignore := normalise_ignore_ca_error (default (VBool false) (ignore_ca_error args)) in
              hd <~ build_headers at_ (auth_string args);;
              cv <~ cert_validation ignore hd warning;;
              inr {| cfg_repository_configs := configs;
                     cfg_state := st;
                     cfg_baseUrl := base ++ "/artifactory/";
                     cfg_uriParams := cv.1;
                     cfg_warning := cv.2 |}
      end
  end.

(** *** The server, as the [uri] module shows it

    [self._execute_module('uri', ...)] returns a dictionary with [failed],
    [status], [msg] and [content]; [status] is the HTTP status code, an
    [int] (-1 when there was no answer), and [msg] a string.  The list
    endpoint
    [api/repositories] answers with a JSON array of objects and
    [api/repositories/<key>] with one object; reading does not change the
    server.  The URL is [quote(baseUrl + 'api/repositories/' + key)]: a
    request is identified by its method and key. *)

Inductive uri_result (A : Type) :=
| UriFailed (status : Z) (message : string)
| UriOk (content : A).
Arguments UriFailed {A} status message.
Arguments UriOk {A} content.

Inductive request :=
| ListRepositories
| GetRepository (key : string)
| PutRepository (key : string) (body : dict)
| PostRepository (key : string) (body : dict)
| DeleteRepository (key : string).

#[global] Instance request_eq_dec : EqDecision request.
Proof. solve_decision. Defined.

Class Remote (S : Type) := {
  list_repositories : uri_params → S → uri_result (list dict);
  get_repository : uri_params → string → S → uri_result dict;
  put_repository : uri_params → string → dict → S → uri_result unit * S;
  post_repository : uri_params → string → dict → S → uri_result unit * S;
  delete_repository : uri_params → string → S → uri_result unit * S;
}.

(** The state of a run: [heap] holds the dictionaries of
    [args['repository_configs']], a dictionary being named by its
    position in that list (the elements of the list are distinct
    objects); [onlyInArgs] and [inBoth] share these dictionaries with the
    caller's list.  [remote] is the server and [calls] the requests sent
    so far, oldest first. *)
Record world (S : Type) := World {
  heap : list dict;
  remote : S;
  calls : list request;
}.
Arguments World {S} heap remote calls.
Arguments heap {S} w.
Arguments remote {S} w.
Arguments calls {S} w.

(** [onlyInArgs] and [inBoth] hold references into [heap];
    [onlyInArtifactory] holds what the server listed. *)
Record parts := Parts {
  onlyInArgs : list nat;
  inBoth : list nat;
  onlyInArtifactory : list dict;
}.

Record counts := Counts {
  addedRepos : nat;
  updatedRepos : nat;
  deletedRepos : nat;
}.

Record task_result := {
  warning : arg (list string);
  msg : string;
  changed : bool;
}.

(** Lines 192-197: one [item] of [jsonGetResult] against the record
    [heap[i]].  [list.remove(x)] drops the first element that is [x] or
    equals [x]. *)
Definition sort_item (i : nat) (item : dict) (p : parts) : M (list dict) parts :=
  h <- get;;
  match h !! i with
  | None => ret p
  | Some repo =>
      ik <- lift (getitem item "key");;
      rk <- lift (getitem repo "key");;
      if String.eqb (lower (str ik)) (lower (str rk)) then
        match remove_first (λ j, bool_decide (h !! j = Some repo)) (onlyInArgs p) with
        | None => raise ValueError
        | Some onlyInArgs' =>
            let repo' := <["key" := ik]> repo in
            put (<[i := repo']> h);;;
            match remove_first (λ x, bool_decide (x = repo')) (onlyInArtifactory p) with
            | None => raise ValueError
            | Some onlyInArtifactory' =>
                ret (Parts onlyInArgs' (inBoth p ++ [i]) onlyInArtifactory')
            end
        end
      else ret p
  end.

(** Lines 187-197. *)
Definition sort_repositories (jsonGetResult : list dict) : M (list dict) parts :=
  h <- get;;
  for_fold (λ i p, for_fold (sort_item i) jsonGetResult p)
    (seq 0 (length h))
    (Parts (seq 0 (length h)) [] jsonGetResult).

(** [baseUrl + 'api/repositories/' + repo['key']] *)
Definition url_key (repo : dict) : E string :=
  k <~ getitem repo "key";;
  match k with
  | VStr s => inr s
  | _ => inl TypeError
  end.

(** What [raise AnsibleActionFail(what + ' failed with status ' +
    result['status'] + ': ' + result['msg'])] raises (lines 176, 221, 237,
    259 and 281): the message is built first, and adding the [int] status
    to the text raises before there is an [AnsibleActionFail]. *)
Definition failure (what : string) (status : Z) (message : string) : exn :=
  match text <~ str_add_int (what ++ " failed with status ") status;;
        inr (text ++ ": " ++ message) with
  | inl e => e
  | inr text => AnsibleActionFail text
  end.

Section Run.
Context {S : Type} `{Remote S}.

Definition on_heap {A} (m : M (list dict) A) : M (world S) A :=
  λ w, let '(r, h) := m (heap w) in (r, World h (remote w) (calls w)).

Definition deref (ref : nat) : M (world S) dict :=
  λ w, (inr (default ∅ (heap w !! ref)), w).

Definition uri_read {A} (rq : request) (f : S → uri_result A) : M (world S) (uri_result A) :=
  λ w, (inr (f (remote w)), World (heap w) (remote w) (calls w ++ [rq])).

Definition uri_write (rq : request) (f : S → uri_result unit * S)
  : M (world S) (uri_result unit) :=
  λ w, let '(r, s) := f (remote w) in (inr r, World (heap w) s (calls w ++ [rq])).

Definition is_present_or_prune (cfg : config) : bool :=
  String.eqb (cfg_state cfg) "present" || String.eqb (cfg_state cfg) "prune".

Definition nonempty {A} (l : list A) : bool :=
  match l with [] => false | _ => true end.

(** Lines 209-221. *)
Definition add_repository (cfg : config) (ref : nat) : M (world S) unit :=
  repo <- deref ref;;
  key <- lift (url_key repo);;
  r <- uri_write (PutRepository key repo) (put_repository (cfg_uriParams cfg) key repo);;
  match r with
  | UriFailed status message =>
      raise (failure ("Adding repository " ++ key ++ " to artifactory") status message)
  | UriOk _ => ret tt
  end.

(** Lines 204-221. *)
Definition add_repositories (check_mode : bool) (cfg : config) (p : parts) : M (world S) nat :=
  if is_present_or_prune cfg && nonempty (onlyInArgs p) then
    (if check_mode then ret tt else for_each (add_repository cfg) (onlyInArgs p));;;
    ret (length (onlyInArgs p))
  else ret 0.

(** Lines 226-259. *)
Definition update_repository (check_mode : bool) (cfg : config) (ref : nat) (updated : nat)
  : M (world S) nat :=
  repo <- deref ref;;
  key <- lift (url_key repo);;
  r <- uri_read (GetRepository key) (get_repository (cfg_uriParams cfg) key);;
  match r with
  | UriFailed status message =>
      raise (failure ("Querying repository config for " ++ key ++ " in artifactory") status message)
  | UriOk currentConfig =>
      let futureConfig := repo ∪ currentConfig in
      if bool_decide (futureConfig ≠ currentConfig) then
        (if check_mode then ret tt else
           r <- uri_write (PostRepository key repo)
                  (post_repository (cfg_uriParams cfg) key repo);;
           match r with
           | UriFailed status message =>
               raise (failure ("Updating repository config for " ++ key ++ " in artifactory")
                        status message)
           | UriOk _ => ret tt
           end);;;
        ret (updated + 1)
      else ret updated
  end.

(** Lines 223-259. *)
Definition update_repositories (check_mode : bool) (cfg : config) (p : parts) : M (world S) nat :=
  if is_present_or_prune cfg && nonempty (inBoth p) then
    for_fold (update_repository check_mode cfg) (inBoth p) 0
  else ret 0.

(** Lines 263-267. *)
Definition toRemove (cfg : config) (p : parts) : M (world S) (list dict) :=
  w <- get;;
  let inBothRecords := (λ ref, default ∅ (heap w !! ref)) <$> inBoth p in
  let r := if String.eqb (cfg_state cfg) "absent" && nonempty (inBoth p)
           then inBothRecords else [] in
  ret (if String.eqb (cfg_state cfg) "prune" && nonempty (onlyInArtifactory p)
       then onlyInArtifactory p else r).

(** Lines 269-281. *)
Definition delete_repository_of (check_mode : bool) (cfg : config) (total : nat)
    (repo : dict) (deleted : nat) : M (world S) nat :=
  (if check_mode then ret tt else
     key <- lift (url_key repo);;
     r <- uri_write (DeleteRepository key) (delete_repository (cfg_uriParams cfg) key);;
     match r with
     | UriFailed status message =>
         raise (failure ("Deleting repository " ++ key ++ " from artifactory") status message)
     | UriOk _ => ret tt
     end);;;
  ret total.

(** Lines 261-281. *)
Definition delete_repositories (check_mode : bool) (cfg : config) (p : parts) : M (world S) nat :=
  l <- toRemove cfg p;;
  for_fold (delete_repository_of check_mode cfg (length l)) l 0.

(** Lines 165-281: fetch, sort, add, update, delete. *)
Definition reconcile (check_mode : bool) (cfg : config) : M (world S) counts :=
  r <- uri_read ListRepositories (list_repositories (cfg_uriParams cfg));;
  match r with
  | UriFailed status message =>
      raise (failure "Querying repositories in artifactory" status message)
  | UriOk jsonGetResult =>
      p <- on_heap (sort_repositories jsonGetResult);;
      added <- add_repositories check_mode cfg p;;
      updated <- update_repositories check_mode cfg p;;
      deleted <- delete_repositories check_mode cfg p;;
      ret (Counts added updated deleted)
  end.

Definition crlf : string :=
  String (Ascii.ascii_of_nat 13) (String (Ascii.ascii_of_nat 10) EmptyString).

(** Lines 285-293. *)
Definition report (cfg : config) (c : counts) : task_result :=
  if (addedRepos c + updatedRepos c + deletedRepos c =? 0)%nat
  then {| warning := cfg_warning cfg; msg := "No repositories changed"; changed := false |}
  else {| warning := cfg_warning cfg;
          msg := pretty (addedRepos c) ++ " repositories were added" ++ crlf
                 ++ pretty (updatedRepos c) ++ " repositories were updated" ++ crlf
                 ++ pretty (deletedRepos c) ++ " repositories were deleted";
          changed := true |}.

(** [ActionModule.run]; [check_mode] is [self._play_context.check_mode]
    and [parent_warning] is [result['warning']] as the parent class left
    it. *)
Definition run (check_mode : bool) (args : task_args) (parent_warning : arg (list string))
  : M (world S) task_result :=
  cfg <- lift (prepare args parent_warning);;
  c <- reconcile check_mode cfg;;
  ret (report cfg c).

(** The world a task starts in: the caller's records, the server, no
    call yet. *)
Definition start (args : task_args) (server : S) : world S :=
  World (match repository_configs args with Given l => l | _ => [] end) server [].

End Run.

End ActionModule.

(** ** A reference server

    A keyed store of repository payloads: the list endpoint shows every
    payload under its key, [PUT] creates or replaces, [POST] merges the
    body over the stored payload, [DELETE] removes.  It never refuses a
    mutation. *)

Module Store.
Import ActionModule.

Definition store := list (string * dict).

Definition shown (entry : string * dict) : dict := <["key" := VStr entry.1]> entry.2.

Definition find (key : string) (s : store) : option dict :=
  shown <$> List.find (λ entry, String.eqb entry.1 key) s.

Definition has (key : string) (s : store) : bool :=
  existsb (λ entry, String.eqb entry.1 key) s.

Definition replace (key : string) (f : dict → dict) (s : store) : store :=
  (λ entry, if String.eqb entry.1 key then (entry.1, f entry.2) else entry) <$> s.

#[global] Instance store_remote : Remote store := {
  list_repositories _ s := UriOk (shown <$> s);
  get_repository _ key s :=
    match find key s with
    | Some d => UriOk d
    | None => UriFailed 404 "Not Found"
    end;
  put_repository _ key body s :=
    (UriOk tt, if has key s then replace key (λ _, body) s else (s ++ [(key, body)])%list);
  post_repository _ key body s := (UriOk tt, replace key (λ d, body ∪ d) s);
  delete_repository _ key s :=
    (UriOk tt, List.filter (λ entry, negb (String.eqb entry.1 key)) s);
}.

End Store.

(** ** A reference server that lists summaries

    As the reference server, but the list endpoint shows of each
    repository its key, its class under ["type"] and its package type,
    the way Artifactory lists repositories, and the read-one endpoint
    shows the whole payload. *)

Module Summaries.
Import ActionModule.

Record artifactory := Artifactory { repositories : Store.store }.

Definition listed (entry : string * dict) : dict :=
  let field (name : string) := default VNone (entry.2 !! name) in
  {[ "key" := VStr entry.1; "type" := field "rclass"; "packageType" := field "packageType" ]}.

#[global] Instance artifactory_remote : Remote artifactory := {
  list_repositories _ s := UriOk (listed <$> repositories s);
  get_repository up key s := get_repository up key (repositories s);
  put_repository up key body s :=
    (UriOk tt, Artifactory (put_repository up key body (repositories s)).2);
  post_repository up key body s :=
    (UriOk tt, Artifactory (post_repository up key body (repositories s)).2);
  delete_repository up key s :=
    (UriOk tt, Artifactory (delete_repository up key (repositories s)).2);
}.

End Summaries.

(** ** The declarative API: [plugins/module_utils/ArtifactoryApi.py] *)

Module ArtifactoryApi.

(** A parsed JSON document, as far as the API meets them: an array of
    names or an object. *)
Inductive json :=
| JNames (names : list string)
| JObject (d : dict).

(** [ConfigRecord]: the attributes set by [__init__], lines 207-213 (the
    JSON string form of line 208 is not modelled). *)
Record ConfigRecord := {
  record : json;
  _keylist : list string;
}.

(** [j['key']]: an array wants an integer index. *)
Definition json_item (j : json) (k : string) : E value :=
  match j with
  | JObject d => getitem d k
  | JNames _ => inl TypeError
  end.

(** [j.keys()]: an array has no such method. *)
Definition json_keys (j : json) : E (list string) :=
  match j with
  | JObject d => inr (map_to_list d).*1
  | JNames _ => inl AttributeError
  end.

(** The objects the API passes around where a list of records is
    expected: a list, a tuple, or one [ConfigRecord]. *)
Inductive pyobj :=
| PyList (l : list ConfigRecord)
| PyTuple (l : list ConfigRecord)
| PyConfigRecord (r : ConfigRecord).

(** The attributes an object answers to: those of [list] and [tuple],
    and for a [ConfigRecord] its two fields and the methods of the class
    (lines 201-244). *)
Definition attributes (o : pyobj) : list string :=
  match o with
  | PyList _ =>
      ["append"; "clear"; "copy"; "count"; "extend"; "index"; "insert"; "pop"; "remove";
       "reverse"; "sort"; "__iter__"; "__getitem__"]
  | PyTuple _ => ["count"; "index"; "__iter__"; "__getitem__"]
  | PyConfigRecord _ =>
      ["record"; "_keylist"; "__init__"; "__eq__"; "__str__"; "deepEquals"; "update"]
  end.

(** [o.name] *)
Definition getattr (o : pyobj) (name : string) : E unit :=
  if bool_decide (name ∈ attributes o) then inr tt else inl AttributeError.

(** [for x in o] *)
Definition iterate (o : pyobj) : E (list ConfigRecord) :=
  match o with
  | PyList l | PyTuple l => inr l
  | PyConfigRecord _ => inl TypeError
  end.

(** [o[k]] with a string [k]: a sequence wants an integer, a
    [ConfigRecord] is not subscriptable. *)
Definition subscript (o : pyobj) (k : string) : E value := inl TypeError.

(** The loop of lines 221-225 and of lines 237-241: whatever the loop
    variable [key], the field compared is ['key']. *)
Fixpoint compare_key_field (keys : list string) (self other : ConfigRecord) : E bool :=
  match keys with
  | [] => inr true
  | _ :: keys' =>
      o <~ json_item (record other) "key";;
      s <~ json_item (record self) "key";;
      if bool_decide (o ≠ s) then inr false else compare_key_field keys' self other
  end.

(** [ConfigRecord.__eq__], lines 215-225.  [isinstance(other,
    self.ConfigRecord)] first reads the attribute [ConfigRecord] of
    [self]. *)
Definition __eq__ (self other : ConfigRecord) : E bool :=
  _ <~ getattr (PyConfigRecord self) "ConfigRecord";;
  compare_key_field (_keylist self) self other.

(** [ConfigRecord.deepEquals], lines 230-241. *)
Definition deepEquals (self other : ConfigRecord) : E bool :=
  _ <~ getattr (PyConfigRecord self) "ConfigRecord";;
  keys <~ json_keys (record self);;
  compare_key_field keys self other.

(** [ConfigRecord.update], lines 243-244, with a dictionary. *)
Definition update (self : ConfigRecord) (other : dict) : E ConfigRecord :=
  match record self with
  | JObject d => inr {| record := JObject (other ∪ d); _keylist := _keylist self |}
  | JNames _ => inl AttributeError
  end.

(** [item in l]: the elements of [l] are other objects than [item], so
    each is compared with [__eq__]. *)
Fixpoint contains_record (item : ConfigRecord) (l : list ConfigRecord) : E bool :=
  match l with
  | [] => inr false
  | x :: l' => b <~ __eq__ x item;; if b then inr true else contains_record item l'
  end.

(** [l.remove(item)] *)
Fixpoint remove_record (item : ConfigRecord) (l : list ConfigRecord) : E (list ConfigRecord) :=
  match l with
  | [] => inl ValueError
  | x :: l' =>
      b <~ __eq__ x item;;
      if b then inr l' else l'' <~ remove_record item l';; inr (x :: l'')
  end.

(** The loop of [_sortConfigs], lines 179-184. *)
Fixpoint sort_loop (items configRecordListB : list ConfigRecord)
    (acc : list ConfigRecord * list ConfigRecord * list ConfigRecord)
  : E (list ConfigRecord * list ConfigRecord * list ConfigRecord) :=
  match items with
  | [] => inr acc
  | item :: items' =>
      let '(onlyInListA, inBoth, onlyInListB) := acc in
      b <~ contains_record item configRecordListB;;
      if b then
        _ <~ getattr (PyConfigRecord item) "copy";;
        onlyInListB' <~ remove_record item onlyInListB;;
        sort_loop items' configRecordListB (onlyInListA, (inBoth ++ [item])%list, onlyInListB')
      else
        _ <~ getattr (PyConfigRecord item) "copy";;
        sort_loop items' configRecordListB ((onlyInListA ++ [item])%list, inBoth, onlyInListB)
  end.

(** [ArtifactoryApi._sortConfigs], lines 173-185. *)
Definition _sortConfigs (configRecordListA configRecordListB : pyobj)
  : E (list ConfigRecord * list ConfigRecord * list ConfigRecord) :=
  _ <~ getattr configRecordListB "copy";;
  onlyInListB <~ iterate configRecordListB;;
  items <~ iterate configRecordListA;;
  sort_loop items onlyInListB ([], [], onlyInListB).

(** The object itself: the attributes set by [__init__], lines 42-52. *)
Record api := {
  baseUrl : string;
  headers : dict;
  ignore_ca_error : bool;
  configs : pyobj;
  keyList : list string;
  inCheckMode : bool;
}.

Definition set_configs (self : api) (c : pyobj) : api :=
  {| baseUrl := baseUrl self; headers := headers self;
     ignore_ca_error := ignore_ca_error self; configs := c;
     keyList := keyList self; inCheckMode := inCheckMode self |}.

(** [ArtifactoryApi.__init__], lines 29-52.  An optional argument that
    is not passed takes its default, [False]; [recordKeyList] is what
    the subclass's [_getRecordKeyList] returns. *)
Definition __init__ (recordKeyList : list string)
    (artifactory_base_url auth_type auth_string : string)
    (ignore_ca_error inCheckMode : option bool) : E api :=
  hd <~ (if String.eqb auth_type "accesstoken" then
           inr {[ "Authorization" := VStr ("Bearer " ++ auth_string) ]}
         else if String.eqb auth_type "apikey" then
           inr {[ "X-JFrog-Art-Api" := VStr auth_string ]}
         else
           b <~ ActionModule.standard_b64encode auth_string;;
           inr ({[ "Authorization" := VStr ("Basic " ++ b) ]} : dict));;
  inr {| baseUrl := artifactory_base_url;
         headers := hd;
         ignore_ca_error := default false ignore_ca_error;
         configs := PyList [];
         keyList := recordKeyList;
         inCheckMode := default false inCheckMode |}.

(** [ansible.module_utils.urls.Request(headers=..., validate_certs=...)]:
    certificates are checked when [validate_certs] is true. *)
Record Request := {
  request_headers : dict;
  validate_certs : bool;
}.

(** One [request.open(method, url, data=content)]. *)
Record sent := {
  sent_request : Request;
  sent_method : string;
  sent_url : string;
  sent_data : option json;
}.

(** The server behind the transport: it answers with a parsed body or
    the call raises. *)
Class Transport (S : Type) := {
  open_url : sent → S → E json * S;
}.

(** The state of a session: the object, the server, the requests sent. *)
Record session (S : Type) := Session {
  self : api;
  server : S;
  wire : list sent;
}.
Arguments Session {S} self server wire.
Arguments self {S} s.
Arguments server {S} s.
Arguments wire {S} s.

Section Api.
Context {S : Type} `{Transport S}.

(** [ArtifactoryApi._sendRequest], lines 187-194; [urllib.parse.quote]
    is left to the transport.  An absent [method] is a call that does
    not pass the required argument. *)
Definition _sendRequest (urltail : string) (method : option string) (content : option json)
  : M (session S) json :=
  match method with
  | None => raise TypeError
  | Some method =>
      s <- get;;
      let url := baseUrl (self s) ++ urltail in
      let request := {| request_headers := headers (self s);
                        validate_certs := ignore_ca_error (self s) |} in
      let call := {| sent_request := request; sent_method := method;
                     sent_url := url; sent_data := content |} in
      let '(response, server') := open_url call (server s) in
      put (Session (self s) server' (wire s ++ [call])%list);;;
      lift response
  end.

(** The abstract methods, lines 136-171. *)
Class Endpoint := {
  _getRecordKeyList : list string;
  _addToArtifactory : ConfigRecord → M (session S) unit;
  _deleteFromArtifactory : ConfigRecord → M (session S) unit;
  _updateInArtifactory : ConfigRecord → M (session S) bool;
  _getConfigRecordListFromArtifactory : M (session S) pyobj;
}.

Context `{Endpoint}.

(** Lines 60-61, 87-88 and 108-109: each turn of the loop assigns one
    record to [self.configs]. *)
Definition load_configs (configs : list dict) : M (session S) unit :=
  for_each (λ config,
      s <- get;;
      put (Session (set_configs (self s) (PyConfigRecord
             {| record := JObject config; _keylist := keyList (self s) |}))
             (server s) (wire s)))
    configs.

Definition nonempty {A} (l : list A) : bool :=
  match l with [] => false | _ => true end.

(** Lines 74-78 (and 122-126). *)
Definition update_all (inBoth : list ConfigRecord) (isChanged : bool) : M (session S) bool :=
  if nonempty inBoth then
    for_fold (λ config isChanged,
        temp <- _updateInArtifactory config;;
        ret (if temp then true else isChanged))
      inBoth isChanged
  else ret isChanged.

(** Lines 68-71 (and 116-119). *)
Definition add_all (onlyInConfigList : list ConfigRecord) (isChanged : bool)
  : M (session S) bool :=
  if nonempty onlyInConfigList then
    for_each _addToArtifactory onlyInConfigList;;; ret true
  else ret isChanged.

(** Lines 95-98 and 129-132. *)
Definition delete_all (l : list ConfigRecord) (isChanged : bool) : M (session S) bool :=
  if nonempty l then
    for_each _deleteFromArtifactory l;;; ret true
  else ret isChanged.

Definition sorted : M (session S) (list ConfigRecord * list ConfigRecord * list ConfigRecord) :=
  artifactoryRecordList <- _getConfigRecordListFromArtifactory;;
  s <- get;;
  lift (_sortConfigs (configs (self s)) artifactoryRecordList).

(** [ArtifactoryApi.applyConfigs], lines 54-80. *)
Definition applyConfigs (configs : list dict) : M (session S) bool :=
  load_configs configs;;;
  p <- sorted;;
  let '(onlyInConfigList, inBoth, onlyInArtifactory) := p in
  isChanged <- add_all onlyInConfigList false;;
  update_all inBoth isChanged.

(** [ArtifactoryApi.deleteConfigs], lines 82-100. *)
Definition deleteConfigs (configs : list dict) : M (session S) bool :=
  load_configs configs;;;
  p <- sorted;;
  let '(onlyInConfigList, inBoth, onlyInArtifactory) := p in
  delete_all inBoth false.

(** [ArtifactoryApi.pruneConfigs], lines 102-134. *)
Definition pruneConfigs (configs : list dict) : M (session S) bool :=
  load_configs configs;;;
  p <- sorted;;
  let '(onlyInConfigList, inBoth, onlyInArtifactory) := p in
  isChanged <- add_all onlyInConfigList false;;
  isChanged <- update_all inBoth isChanged;;
  delete_all onlyInArtifactory isChanged.

End Api.

End ArtifactoryApi.

(** ** The LDAP settings module: [plugins/modules/artifactory_ldap_settings.py] *)

Module ArtifactoryLDAP.
Import ArtifactoryApi.

(** Binding the arguments of a call to the parameters of a function:
    too many positional arguments, a keyword that names a parameter
    already bound by position, and an unknown keyword are refused. *)
Definition bind_arguments (parameters : list string) (positional : nat)
    (keywords : list string) : E unit :=
  if bool_decide (length parameters < positional)%nat then inl TypeError
  else if bool_decide (Exists (λ k, k ∈ take positional parameters) keywords)
       then inl TypeError
  else if bool_decide (Exists (λ k, k ∉ parameters) keywords) then inl TypeError
  else inr tt.

(** [super(a, ...)]: the builtin takes at most two arguments. *)
Definition super (arguments : nat) : E unit :=
  if bool_decide (arguments ≤ 2)%nat then inr tt else inl TypeError.

(** [ArtifactoryApi.ConfigRecord(record, keylist)]; a [keylist] of
    [None] is a call that does not pass it. *)
Definition new_ConfigRecord (record : json) (keylist : option (list string)) : E ConfigRecord :=
  match keylist with
  | None => inl TypeError
  | Some l => inr {| record := record; _keylist := l |}
  end.

(** [for name in configNames] *)
Definition names_of (j : json) : list string :=
  match j with
  | JNames l => l
  | JObject d => (map_to_list d).*1
  end.

(** [configs.append(r)] once the attribute is found. *)
Definition appended (configs : pyobj) (r : ConfigRecord) : pyobj :=
  match configs with
  | PyList l => PyList (l ++ [r])%list
  | other => other
  end.

(** [ArtifactoryLDAP._getRecordKeyList], line 197: [list("key")]. *)
Definition _getRecordKeyList : list string := ["k"; "e"; "y"].

(** [ArtifactoryLDAP.__init__], lines 192-194. *)
Definition __init__ (artifactory_base_url auth_type auth_string : string)
    (ignore_ca_error inCheckMode : option bool) : E api :=
  _ <~ super 5;;
  a <~ ArtifactoryApi.__init__ _getRecordKeyList artifactory_base_url auth_type auth_string
         ignore_ca_error inCheckMode;;
  inr {| baseUrl := baseUrl a ++ "/artifactory/api/plugins/execute/";
         headers := headers a; ignore_ca_error := ArtifactoryApi.ignore_ca_error a;
         configs := configs a; keyList := keyList a;
         inCheckMode := ArtifactoryApi.inCheckMode a |}.

Section Ldap.
Context {S : Type} `{Transport S}.

(** [ArtifactoryLDAP._addToArtifactory], lines 199-204; the body sent is
    [str(configRecord)]. *)
Definition _addToArtifactory (configRecord : ConfigRecord) : M (session S) unit :=
  s <- get;;
  if inCheckMode (self s) then ret tt
  else _sendRequest "addLdapSetting" (Some "POST") (Some (record configRecord));;; ret tt.

(** [ArtifactoryLDAP._deleteFromArtifactory], lines 206-211. *)
Definition _deleteFromArtifactory (configRecord : ConfigRecord) : M (session S) unit :=
  s <- get;;
  if inCheckMode (self s) then ret tt
  else
    key <- lift (subscript (PyConfigRecord configRecord) "key");;
    url <- lift (str_add "deleteLdapSetting?params=key=" key);;
    _sendRequest url (Some "DELETE") None;;; ret tt.

(** [ArtifactoryLDAP._updateInArtifactory], lines 213-229.  Line 221
    subscripts the record, calls [_sendRequest] without a method and
    [ConfigRecord] without a key list; line 222 calls [deepCopy]; line
    223 hands [update] a [ConfigRecord] where a mapping is wanted. *)
Definition _updateInArtifactory (configRecord : ConfigRecord) : M (session S) bool :=
  key <- lift (subscript (PyConfigRecord configRecord) "key");;
  url <- lift (str_add "getLdapSetting?params=key=" key);;
  response <- _sendRequest url None None;;
  artConfig <- lift (new_ConfigRecord response None);;
  _ <- lift (getattr (PyConfigRecord artConfig) "deepCopy");;
  let newConfig := artConfig in
  _ <- lift (iterate (PyConfigRecord configRecord));;
  same <- lift (deepEquals newConfig artConfig);;
  if same then ret false
  else
    s <- get;;
    (if inCheckMode (self s) then ret tt
     else
       url <- lift (str_add "updateLdapSetting?params=key=" key);;
       _sendRequest url (Some "POST") (Some (record newConfig));;; ret tt);;;
    ret true.

(** [ArtifactoryLDAP._getConfigRecordListFromArtifactory], lines 231-246. *)
Definition _getConfigRecordListFromArtifactory : M (session S) pyobj :=
  configNames <- _sendRequest "getLdapSettingsList" (Some "GET") None;;
  for_fold (λ name configs,
      config <- _sendRequest ("getLdapSetting?params=key=" ++ name) (Some "GET") None;;
      _ <- lift (getattr configs "append");;
      r <- lift (new_ConfigRecord config None);;
      ret (appended configs r))
    (names_of configNames) (PyTuple []).

#[global] Instance ldap_endpoint : Endpoint := {
  ArtifactoryApi._getRecordKeyList := _getRecordKeyList;
  ArtifactoryApi._addToArtifactory := _addToArtifactory;
  ArtifactoryApi._deleteFromArtifactory := _deleteFromArtifactory;
  ArtifactoryApi._updateInArtifactory := _updateInArtifactory;
  ArtifactoryApi._getConfigRecordListFromArtifactory := _getConfigRecordListFromArtifactory;
}.

(** [module.params] of [run_module]. *)
Record params := {
  ldap_settings : list dict;
  artifactory_base_url : string;
  state : string;
  auth_type : string;
  auth_string : string;
  ignore_ca_error : bool;
}.

(** [run_module], lines 167-186, from the [AnsibleModule] on; the result
    is the [changed] flag.  Line 168 passes four positional arguments
    (the settings first) and the keywords [ignore_ca_error] and
    [inCheckMode] to [ArtifactoryLDAP.__init__], whose fourth parameter
    is [ignore_ca_error]: the call stops at the binding, and what follows
    it here is the call as it was meant. *)
Definition run_module (p : params) (check_mode : bool) : M (session S) bool :=
  _ <- lift (bind_arguments
               ["artifactory_base_url"; "auth_type"; "auth_string"; "ignore_ca_error"; "inCheckMode"]
               4 ["ignore_ca_error"; "inCheckMode"]);;
  a <- lift (__init__ (artifactory_base_url p) (auth_type p) (auth_string p)
               (Some (ignore_ca_error p)) (Some check_mode));;
  s <- get;;
  put (Session a (server s) (wire s));;;
  if String.eqb (lower (state p)) "present" then applyConfigs (ldap_settings p)
  else if String.eqb (lower (state p)) "absent" then deleteConfigs (ldap_settings p)
  else if String.eqb (lower (state p)) "prune" then pruneConfigs (ldap_settings p)
  else raise (FailJson "State was not set to a valid value.  Must be Present, Absent, or Prune").

End Ldap.

End ArtifactoryLDAP.

(** ** A reference LDAP plugin server

    The state is the list of setting names; the list endpoint answers
    with the names, any other request with an object carrying a key. *)

Module Wire.
Import ArtifactoryApi.

#[global] Instance names_transport : Transport (list string) := {
  open_url call names :=
    (inr (if contains "getLdapSettingsList" (sent_url call)
          then JNames names
          else JObject {[ "key" := VStr "setting" ]}),
     names);
}.

End Wire.

(** ** Records used in the examples *)

Module Examples.
Import ActionModule.

Definition repo (key : string) : dict :=
  {[ "key" := VStr key; "rclass" := VStr "local"; "packageType" := VStr "maven" ]}.

Definition described (key description : string) : dict :=
  <["description" := VStr description]> (repo key).

(** What Artifactory lists for a repository. *)
Definition summary (key : string) : dict :=
  {[ "key" := VStr key; "type" := VStr "LOCAL"; "packageType" := VStr "Maven" ]}.

Definition bare (key : string) : dict := {[ "key" := VStr key ]}.

Definition ldap (key : string) (enabled : bool) : dict :=
  {[ "key" := VStr key; "enabled" := VBool enabled ]}.

(** A task authenticated with an access token. *)
Definition task (configs : list dict) (target : string) : task_args :=
  {| repository_configs := Given configs;
     state := Some target;
     artifactory_base_url := Given "https://artifactory.example.com";
     auth_type := Some "AccessToken";
     auth_string := Given "token";
     ignore_ca_error := None |}.

(** One run of the plugin against the reference server. *)
Definition play (check_mode : bool) (configs : list dict) (target : string) (s : Store.store)
  : E task_result * world Store.store :=
  run check_mode (task configs target) (Given []) (start (task configs target) s).

(** What [prepare] makes of such a task. *)
Definition prepared (configs : list dict) (target : string) : config :=
  {| cfg_repository_configs := configs;
     cfg_state := target;
     cfg_baseUrl := "https://artifactory.example.com/artifactory/";
     cfg_uriParams := {| headers := {[ "Authorization" := VStr "Bearer token" ]};
                         validate_certs := None |};
     cfg_warning := Given [] |}.

Definition one_added : task_result :=
  {| warning := Given [];
     msg := "1 repositories were added" ++ crlf ++ "0 repositories were updated" ++ crlf
            ++ "0 repositories were deleted";
     changed := true |}.

Definition unchanged : task_result :=
  {| warning := Given []; msg := "No repositories changed"; changed := false |}.

Definition ldap_params (settings : list dict) (target : string) : ArtifactoryLDAP.params :=
  {| ArtifactoryLDAP.ldap_settings := settings;
     ArtifactoryLDAP.artifactory_base_url := "https://artifactory.example.com";
     ArtifactoryLDAP.state := target;
     ArtifactoryLDAP.auth_type := "accesstoken";
     ArtifactoryLDAP.auth_string := "token";
     ArtifactoryLDAP.ignore_ca_error := false |}.

(** An API object as [ArtifactoryApi.__init__] would leave it. *)
Definition ldap_api (check_mode : bool) : ArtifactoryApi.api :=
  {| ArtifactoryApi.baseUrl := "https://artifactory.example.com/artifactory/api/plugins/execute/";
     ArtifactoryApi.headers := {[ "Authorization" := VStr "Bearer token" ]};
     ArtifactoryApi.ignore_ca_error := false;
     ArtifactoryApi.configs := ArtifactoryApi.PyList [];
     ArtifactoryApi.keyList := ArtifactoryLDAP._getRecordKeyList;
     ArtifactoryApi.inCheckMode := check_mode |}.

Definition ldap_record (d : dict) : ArtifactoryApi.ConfigRecord :=
  {| ArtifactoryApi.record := ArtifactoryApi.JObject d;
     ArtifactoryApi._keylist := ArtifactoryLDAP._getRecordKeyList |}.

End Examples.

(** ** Vocabulary of the statements *)

Module ActionSpec.
Import ActionModule.

(** A record that carries a string under ["key"]. *)
Definition keyed (d : dict) : Prop := ∃ k, d !! "key" = Some (VStr k).

(** A record with the three required fields: a string key, and a
    package type and a repository class that are not [None]. *)
Definition complete (d : dict) : Prop :=
  keyed d ∧
  (∃ v, d !! "packageType" = Some v ∧ v ≠ VNone) ∧
  (∃ v, d !! "rclass" = Some v ∧ v ≠ VNone).

(** The identity key as the plugin compares it: [str(d['key']).lower()]. *)
Definition lower_key (d : dict) : string := lower (str (default VNone (d !! "key"))).

(** [d'] is [d], or [d] with its key spelled another way, the same up to
    the case of the letters. *)
Definition respelled (d d' : dict) : Prop :=
  d' = d ∨
  ∃ v0 v, d !! "key" = Some v0 ∧ lower (str v) = lower (str v0) ∧ d' = <["key" := v]> d.

Definition heap_respelled : list dict → list dict → Prop := Forall2 respelled.

(** [d'] is [d], or [d] with its key overwritten by the key of one of
    the listed records [items], a key that is the key of [d] up to the
    case of the letters. *)
Definition respelled_as (items : list dict) (d d' : dict) : Prop :=
  d' = d ∨
  ∃ item v0 v, item ∈ items ∧ item !! "key" = Some v ∧ d !! "key" = Some v0 ∧
               lower (str v) = lower (str v0) ∧ d' = <["key" := v]> d.

Definition heap_respelled_as (items : list dict) : list dict → list dict → Prop :=
  Forall2 (respelled_as items).

(** What the server lists to a run: nothing when the arguments are
    refused, so that no request is sent, or when the listing fails. *)
Definition listing {S} `{Remote S} (args : task_args) (parent_warning : arg (list string))
    (server : S) : list dict :=
  match prepare args parent_warning with
  | inr cfg =>
      match list_repositories (cfg_uriParams cfg) server with
      | UriOk items => items
      | UriFailed _ _ => []
      end
  | inl _ => []
  end.

(** Requests that read. *)
Definition is_read (rq : request) : bool :=
  match rq with
  | ListRepositories | GetRepository _ => true
  | _ => false
  end.

(** Worlds with the same records in the heap. *)
Definition same_heap {S} (w w' : world S) : Prop := heap w' = heap w.

(** From [w] to [w'] the server was only read. *)
Definition only_read {S} (w w' : world S) : Prop :=
  remote w' = remote w ∧ ∃ l, calls w' = (calls w ++ l)%list ∧ forallb is_read l = true.

(** The record at the reference [ref] carries the key [k]. *)
Definition key_at (h : list dict) (ref : nat) (k : string) : Prop :=
  ∃ d, h !! ref = Some d ∧ d !! "key" = Some (VStr k).

(** What holds of the heap and of the three lists while the records are
    sorted, once the arguments are validated: the records carry string
    keys that differ pairwise even up to case, no reference occurs twice
    in [onlyInArgs] and [inBoth] together, every reference is in the
    heap, and the listed records carry string keys. *)
Definition sorting (h : list dict) (p : parts) : Prop :=
  Forall keyed h ∧
  NoDup (lower_key <$> h) ∧
  NoDup (onlyInArgs p ++ inBoth p) ∧
  Forall (λ ref, is_Some (h !! ref)) (onlyInArgs p ++ inBoth p) ∧
  Forall keyed (onlyInArtifactory p).

(** The records behind a list of references. *)
Definition records (h : list dict) (refs : list nat) : list dict :=
  (λ ref, default ∅ (h !! ref)) <$> refs.

(** The three lists partition the desired records and the listing:
    every desired record is referenced once, in [onlyInArgs] or in
    [inBoth], and the listing is [onlyInArtifactory] together with the
    records of [inBoth], each of which equals the listed record it
    stands for. *)
Definition partitioned (items h : list dict) (p : parts) : Prop :=
  onlyInArgs p ++ inBoth p ≡ₚ seq 0 (length h) ∧
  onlyInArtifactory p ++ records h (inBoth p) ≡ₚ items.

(** A server that behaves as a store of records under their keys: it
    accepts every mutation, a mutation under one key does not change what
    is read under another, and the records it lists carry their key. *)
Record keyed_store (S : Type) `{Remote S} : Prop := {
  put_succeeds : ∀ up k d s, (put_repository up k d s).1 = UriOk tt;
  post_succeeds : ∀ up k d s, (post_repository up k d s).1 = UriOk tt;
  delete_succeeds : ∀ up k s, (delete_repository up k s).1 = UriOk tt;
  get_put_other : ∀ up k k' d s,
    k ≠ k' → get_repository up k (put_repository up k' d s).2 = get_repository up k s;
  get_post_other : ∀ up k k' d s,
    k ≠ k' → get_repository up k (post_repository up k' d s).2 = get_repository up k s;
  list_keyed : ∀ up s l, list_repositories up s = UriOk l → Forall keyed l;
}.

End ActionSpec.

(** ** Further servers and vocabulary *)

(** A server that is down: every request fails. *)
Module Outage.
Import ActionModule.

#[global] Instance down_remote : Remote unit := {
  list_repositories _ _ := UriFailed 503 "Service Unavailable";
  get_repository _ _ _ := UriFailed 503 "Service Unavailable";
  put_repository _ _ _ s := (UriFailed 503 "Service Unavailable", s);
  post_repository _ _ _ s := (UriFailed 503 "Service Unavailable", s);
  delete_repository _ _ s := (UriFailed 503 "Service Unavailable", s);
}.

End Outage.

(** The reference server behind a guard that refuses to create a
    repository under a reserved name, one that begins with "system-". *)
Module Guard.
Import ActionModule.

Record guarded := Guarded { kept : Store.store }.

Definition reserved (key : string) : bool := String.prefix "system-" key.

#[global] Instance guarded_remote : Remote guarded := {
  list_repositories up s := list_repositories up (kept s);
  get_repository up key s := get_repository up key (kept s);
  put_repository up key body s :=
    if reserved key then (UriFailed 403 "Forbidden", s)
    else (UriOk tt, Guarded (put_repository up key body (kept s)).2);
  post_repository up key body s :=
    (UriOk tt, Guarded (post_repository up key body (kept s)).2);
  delete_repository up key s :=
    (UriOk tt, Guarded (delete_repository up key (kept s)).2);
}.

End Guard.

(** An endpoint of the API that keeps its records on a shelf: the fetch
    returns them as a list, adding appends, deleting drops the records
    with the same key, updating changes nothing. *)
Module Shelf.
Import ArtifactoryApi.

Definition shelf := list json.

Definition shelved (j : json) : ConfigRecord := {| record := j; _keylist := ["key"] |}.

Definition on_shelf (f : shelf → shelf) : M (session shelf) unit :=
  λ s, (inr tt, Session (self s) (f (server s)) (wire s)).

#[global] Instance shelf_endpoint : Endpoint (S := shelf) := {
  _getRecordKeyList := ["key"];
  _addToArtifactory r := on_shelf (λ l, l ++ [record r])%list;
  _deleteFromArtifactory r :=
    on_shelf (List.filter (λ j, negb (bool_decide (json_item j "key" = json_item (record r) "key"))));
  _updateInArtifactory _ := ret false;
  _getConfigRecordListFromArtifactory := λ s, (inr (PyList (shelved <$> server s)), s);
}.

End Shelf.

Module Coverage.
Import ActionModule ActionSpec.

(** The three required fields are there and none is [None]. *)
Definition has_required (d : dict) : Prop :=
  ∀ field, field ∈ ["key"; "packageType"; "rclass"] →
           ∃ v, d !! field = Some v ∧ v ≠ VNone.

(** From [w] to [w'] only requests of the kind [P] were sent. *)
Definition sends {S} (P : request → Prop) (w w' : world S) : Prop :=
  ∃ l, calls w' = (calls w ++ l)%list ∧ Forall P l.

Definition is_delete (rq : request) : Prop := ∃ k, rq = DeleteRepository k.

Definition is_list_or_delete (rq : request) : Prop :=
  rq = ListRepositories ∨ is_delete rq.

(** The listed record [item] has the key of [d], up to case. *)
Definition matches (d item : dict) : Prop :=
  ∃ kd ki, d !! "key" = Some kd ∧ item !! "key" = Some ki ∧
           lower (str ki) = lower (str kd).

(** While the records are sorted: the records still in [onlyInArgs] are
    as the caller wrote them, those among them whose turn is over match
    no listed record, the record whose turn it is matches none of the
    listed records already seen, every record of [inBoth] has become a
    listed record with its key up to case, and [onlyInArtifactory]
    holds listed records only. *)
Definition deciding (items h0 : list dict) (over : list nat) (turn : option nat)
    (seen : list dict) (h : list dict) (p : parts) : Prop :=
  sorting h p ∧
  (∀ ref, ref ∈ onlyInArgs p → h !! ref = h0 !! ref) ∧
  (∀ ref d, ref ∈ onlyInArgs p → ref ∈ over → h0 !! ref = Some d →
     lower_key d ∉ lower_key <$> items) ∧
  (∀ i d, turn = Some i → i ∈ onlyInArgs p → h0 !! i = Some d →
     lower_key d ∉ lower_key <$> seen) ∧
  (∀ ref, ref ∈ inBoth p →
     ∃ d item, h0 !! ref = Some d ∧ item ∈ items ∧ lower_key item = lower_key d ∧
               h !! ref = Some item) ∧
  (∀ x, x ∈ onlyInArtifactory p → x ∈ items).

(** While the records of a converged server are sorted, before the turn
    of the record [j]: the records before [j] are in [inBoth], the others
    still in [onlyInArgs], and [onlyInArtifactory] still holds every
    listed record that is none of the records before [j]. *)
Definition matched_up_to (items h0 : list dict) (j : nat) (p : parts) : Prop :=
  onlyInArgs p = seq j (length h0 - j) ∧
  inBoth p = seq 0 j ∧
  ∀ x, x ∈ items → x ∉ take j h0 → x ∈ onlyInArtifactory p.

End Coverage.

(** * Properties *)

Open Scope list_scope.
Import ActionModule ActionSpec.

(** ** The monad *)

Section MonadFacts.
Context {Σ : Type}.

Lemma bind_inr {A B} (m : M Σ A) (k : A → M Σ B) σ a σ' :
  m σ = (inr a, σ') → bind m k σ = k a σ'.
Proof. intros Hm. unfold bind. by rewrite Hm. Qed.

Lemma bind_inl {A B} (m : M Σ A) (k : A → M Σ B) σ e σ' :
  m σ = (inl e, σ') → bind m k σ = (inl e, σ').
Proof. intros Hm. unfold bind. by rewrite Hm. Qed.

Lemma bind_returns {A B} (m : M Σ A) (k : A → M Σ B) σ b σ'' :
  bind m k σ = (inr b, σ'') → ∃ a σ', m σ = (inr a, σ') ∧ k a σ' = (inr b, σ'').
Proof.
  unfold bind. destruct (m σ) as [[e|a] σ'] eqn:Hm; [done|]. eauto.
Qed.

(** A relation between states that every turn of a loop respects is
    respected by the loop. *)
Lemma for_fold_preserves {A B} (R : Σ → Σ → Prop) `{!PreOrder R}
    (body : A → B → M Σ B) (l : list A) :
  (∀ x b σ, R σ (body x b σ).2) → ∀ acc σ, R σ (for_fold body l acc σ).2.
Proof.
  intros Hbody. induction l as [|x l IH]; intros acc σ; simpl; [done|].
  unfold bind. specialize (Hbody x acc σ).
  destruct (body x acc σ) as [[e|b] σ']; simpl in *; [done|].
  etrans; [exact Hbody|apply IH].
Qed.

Lemma for_each_preserves {A} (R : Σ → Σ → Prop) `{!PreOrder R}
    (body : A → M Σ unit) (l : list A) :
  (∀ x σ, R σ (body x σ).2) → ∀ σ, R σ (for_each body l σ).2.
Proof.
  intros Hbody. induction l as [|x l IH]; intros σ; simpl; [done|].
  unfold bind. specialize (Hbody x σ).
  destruct (body x σ) as [[e|b] σ']; simpl in *; [done|].
  etrans; [exact Hbody|apply IH].
Qed.

Lemma bind_preserves {A B} (R : Σ → Σ → Prop) `{!PreOrder R}
    (m : M Σ A) (k : A → M Σ B) σ :
  R σ (m σ).2 → (∀ a σ', R σ' (k a σ').2) → R σ (bind m k σ).2.
Proof.
  intros Hm Hk. unfold bind. destruct (m σ) as [[e|a] σ']; simpl in *; [done|].
  etrans; [exact Hm|apply Hk].
Qed.

Lemma lift_state {A} (r : E A) (σ : Σ) : (lift r σ).2 = σ.
Proof. done. Qed.

End MonadFacts.

(** ** The action plugin: what a run does to the caller's records *)

Section Heap.
Import ActionModule ActionSpec.

#[global] Instance respelled_preorder : PreOrder respelled.
Proof.
  split.
  - intros d. by left.
  - intros d1 d2 d3 [->|(v0 & v & Hk & Hl & ->)] [->|(v1 & v' & Hk' & Hl' & ->)].
    + by left.
    + right. eauto 10.
    + right. eauto 10.
    + right. exists v0, v'. rewrite lookup_insert_eq in Hk'. simplify_eq.
      split_and!; [done|congruence|by rewrite insert_insert_eq].
Qed.

#[global] Instance heap_respelled_preorder : PreOrder heap_respelled.
Proof. unfold heap_respelled. apply _. Qed.

Lemma sort_item_respells i item p h : heap_respelled h (sort_item i item p h).2.
Proof.
  unfold sort_item, bind, get, lift, put, raise, ret.
  destruct (h !! i) as [repo|] eqn:Hi; simpl; [|done].
  destruct (getitem item "key") as [e|ik]; simpl; [done|].
  destruct (getitem repo "key") as [e|rk] eqn:Hrk; simpl; [done|].
  destruct (String.eqb _ _) eqn:Heq; simpl; [|done].
  destruct (remove_first _ (onlyInArgs p)); simpl; [|done].
  assert (heap_respelled h (<[i := <["key" := ik]> repo]> h)) as Hh.
  { rewrite <-(list_insert_id h i repo) at 1 by done.
    apply Forall2_insert; [reflexivity|].
    right. exists rk, ik. unfold getitem in Hrk.
    destruct (repo !! "key") eqn:?; simplify_eq.
    apply String.eqb_eq in Heq. done. }
  by destruct (remove_first _ (onlyInArtifactory p)).
Qed.

Lemma sort_repositories_respells items h :
  heap_respelled h (sort_repositories items h).2.
Proof.
  unfold sort_repositories. apply (bind_preserves heap_respelled); [done|].
  intros h0 h1. apply (for_fold_preserves heap_respelled).
  intros i p h2. apply (for_fold_preserves heap_respelled).
  intros. apply sort_item_respells.
Qed.

End Heap.

Section World.
Import ActionModule ActionSpec.
Context {S : Type} `{Remote S}.

#[global] Instance same_heap_preorder : PreOrder (@same_heap S).
Proof. split; unfold same_heap; [done|]. intros ???; congruence. Qed.

#[global] Instance only_read_preorder : PreOrder (@only_read S).
Proof.
  split.
  - intros w. split; [done|]. exists []. by rewrite app_nil_r.
  - intros w1 w2 w3 [Hr (l & Hl & Hf)] [Hr' (l' & Hl' & Hf')].
    split; [congruence|]. exists (l ++ l'). rewrite Hl', Hl, forallb_app, Hf, Hf'.
    by rewrite (assoc_L (++)).
Qed.

Ltac run_step :=
  unfold add_repository, update_repository, delete_repository_of, toRemove, deref,
    uri_read, uri_write, on_heap, bind, get, put, lift, raise, ret;
  simpl; repeat (case_match; simpl; simplify_eq); try done.

Lemma add_repository_heap cfg ref w : same_heap w (add_repository cfg ref w).2.
Proof. unfold same_heap. run_step. Qed.

Lemma update_repository_heap check cfg ref n w :
  same_heap w (update_repository check cfg ref n w).2.
Proof. unfold same_heap. run_step. Qed.

Lemma delete_repository_of_heap check cfg total repo n w :
  same_heap w (delete_repository_of check cfg total repo n w).2.
Proof. unfold same_heap. run_step. Qed.

Lemma add_repositories_heap check cfg p w :
  same_heap w (add_repositories check cfg p w).2.
Proof.
  unfold add_repositories. case_match; [|done].
  apply (bind_preserves same_heap); [|done].
  destruct check; [done|]. apply (for_each_preserves same_heap).
  intros. apply add_repository_heap.
Qed.

Lemma update_repositories_heap check cfg p w :
  same_heap w (update_repositories check cfg p w).2.
Proof.
  unfold update_repositories. case_match; [|done].
  apply (for_fold_preserves same_heap). intros. apply update_repository_heap.
Qed.

Lemma delete_repositories_heap check cfg p w :
  same_heap w (delete_repositories check cfg p w).2.
Proof.
  unfold delete_repositories. apply (bind_preserves same_heap); [done|].
  intros l w'. apply (for_fold_preserves same_heap).
  intros. apply delete_repository_of_heap.
Qed.

Lemma after_sort_heap check cfg p w :
  same_heap w
    ((added <- add_repositories check cfg p;;
      updated <- update_repositories check cfg p;;
      deleted <- delete_repositories check cfg p;;
      ret (Counts added updated deleted)) w).2.
Proof.
  apply (bind_preserves same_heap); [apply add_repositories_heap|]. intros a w1.
  apply (bind_preserves same_heap); [apply update_repositories_heap|]. intros u w2.
  apply (bind_preserves same_heap); [apply delete_repositories_heap|]. done.
Qed.

Lemma reconcile_respells check cfg w :
  heap_respelled (heap w) (heap (reconcile check cfg w).2).
Proof.
  unfold reconcile, bind at 1. simpl.
  destruct (list_repositories _ _) as [st m|items]; simpl; [reflexivity|].
  unfold bind at 1.
  pose proof (sort_repositories_respells items (heap w)) as Hs.
  unfold on_heap at 1. simpl.
  destruct (sort_repositories items (heap w)) as [[e|p] h]; simpl in *; [done|].
  pose proof (after_sort_heap check cfg p (World h (remote w) (calls w ++ [ListRepositories]))) as Hh.
  unfold same_heap in Hh. simpl in Hh. by rewrite Hh.
Qed.

Lemma run_respells check args pw w :
  heap_respelled (heap w) (heap (run check args pw w).2).
Proof.
  unfold run, bind at 1, lift. destruct (prepare args pw) as [e|cfg]; simpl; [reflexivity|].
  unfold bind. pose proof (reconcile_respells check cfg w) as Hr.
  by destruct (reconcile check cfg w) as [[e|c] w'].
Qed.

End World.

(** ** C9: the caller's records after a run *)

Section DesiredRecords.
Import ActionModule ActionSpec.

(** C9, as stated, fails: a run with target state Present whose desired
    record is spelled "myrepo" while the server lists "MyRepo" returns
    normally and leaves the caller's record with the key "MyRepo". *)
Lemma desired_record_rewritten :
  let desired := [Examples.repo "myrepo"] in
  let w := Examples.play false desired "Present" [("MyRepo", Examples.repo "MyRepo")] in
  w.1 = inr Examples.unchanged ∧
  heap w.2 ≠ desired ∧
  heap w.2 = [Examples.repo "MyRepo"].
Proof.
  split_and!.
  - vm_compute. reflexivity.
  - intros Heq. apply (bool_decide_eq_true_2 _) in Heq. vm_compute in Heq. discriminate.
  - vm_compute. reflexivity.
Qed.

#[global] Instance respelled_as_preorder (items : list dict) : PreOrder (respelled_as items).
Proof.
  split.
  - intros d. by left.
  - intros d1 d2 d3 [->|(item & v0 & v & Hin & Hv & Hk & Hl & ->)]
      [->|(item' & v1 & v' & Hin' & Hv' & Hk' & Hl' & ->)].
    + by left.
    + right. eauto 10.
    + right. eauto 10.
    + right. exists item', v0, v'. rewrite lookup_insert_eq in Hk'. simplify_eq.
      split_and!; [done..|congruence|by rewrite insert_insert_eq].
Qed.

#[global] Instance heap_respelled_as_preorder (items : list dict) :
  PreOrder (heap_respelled_as items).
Proof. unfold heap_respelled_as. apply _. Qed.

Lemma for_fold_preserves_in {Σ A B} (R : Σ → Σ → Prop) `{!PreOrder R} (P : A → Prop)
    (body : A → B → M Σ B) (l : list A) :
  (∀ x b σ, P x → R σ (body x b σ).2) → Forall P l →
  ∀ acc σ, R σ (for_fold body l acc σ).2.
Proof.
  intros Hbody Hl. induction Hl as [|x l Hx _ IH]; intros acc σ; simpl; [done|].
  unfold bind. specialize (Hbody x acc σ Hx).
  destruct (body x acc σ) as [[e|b] σ']; simpl in *; [done|].
  etrans; [exact Hbody|apply IH].
Qed.

(** One turn of the partition writes at most the key of the listed
    record it compares with, into the record whose key matches it. *)
Lemma sort_item_respells_as (items : list dict) i item p h :
  item ∈ items → heap_respelled_as items h (sort_item i item p h).2.
Proof.
  intros Hin. unfold sort_item, bind, get, lift, put, raise, ret.
  destruct (h !! i) as [repo|] eqn:Hi; simpl; [|reflexivity].
  destruct (getitem item "key") as [e|ik] eqn:Hik; simpl; [reflexivity|].
  destruct (getitem repo "key") as [e|rk] eqn:Hrk; simpl; [reflexivity|].
  destruct (String.eqb _ _) eqn:Heq; simpl; [|reflexivity].
  destruct (remove_first _ (onlyInArgs p)); simpl; [|reflexivity].
  assert (heap_respelled_as items h (<[i := <["key" := ik]> repo]> h)) as Hh.
  { rewrite <-(list_insert_id h i repo) at 1 by done.
    apply Forall2_insert; [reflexivity|].
    right. exists item, rk, ik. unfold getitem in Hik, Hrk.
    destruct (item !! "key") eqn:?; destruct (repo !! "key") eqn:?; simplify_eq.
    apply String.eqb_eq in Heq. done. }
  by destruct (remove_first _ (onlyInArtifactory p)).
Qed.

Lemma sort_repositories_respells_as (items h : list dict) :
  heap_respelled_as items h (sort_repositories items h).2.
Proof.
  unfold sort_repositories. apply (bind_preserves (heap_respelled_as items)); [reflexivity|].
  intros h0 h1. apply (for_fold_preserves (heap_respelled_as items)).
  intros i p h2.
  apply (for_fold_preserves_in (heap_respelled_as items) (λ item, item ∈ items)).
  - intros. by apply sort_item_respells_as.
  - by apply Forall_forall.
Qed.

Lemma reconcile_respells_as {S : Type} `{Remote S} check cfg (w : world S) :
  heap_respelled_as
    (match list_repositories (cfg_uriParams cfg) (remote w) with
     | UriOk items => items
     | UriFailed _ _ => []
     end)
    (heap w) (heap (reconcile check cfg w).2).
Proof.
  unfold reconcile, bind at 1. simpl.
  destruct (list_repositories _ _) as [st m|items]; simpl; [reflexivity|].
  unfold bind at 1.
  pose proof (sort_repositories_respells_as items (heap w)) as Hs.
  unfold on_heap at 1. simpl.
  destruct (sort_repositories items (heap w)) as [[e|p] h]; simpl in *; [done|].
  pose proof (after_sort_heap check cfg p (World h (remote w) (calls w ++ [ListRepositories]))) as Hh.
  unfold same_heap in Hh. simpl in Hh. by rewrite Hh.
Qed.

(** C9, amended: whatever the arguments, the server and the mode, and
    whether the run returns or raises, the list of desired records keeps
    its length and order, and each record afterwards is the record
    before, or the record before with only its ["key"] field overwritten
    by the key of a record that the server listed to this run, a key
    whose lower-cased text is that of the old key.  No other field of a
    desired record is written, and no record is written when the
    arguments are refused or the listing fails. *)
Theorem desired_records_only_respelled {S : Type} `{Remote S}
    (check_mode : bool) (args : task_args) (parent_warning : arg (list string)) (server : S) :
  heap_respelled_as (listing args parent_warning server)
    (heap (start args server))
    (heap (run check_mode args parent_warning (start args server)).2).
Proof.
  unfold listing, run, bind at 1, lift.
  destruct (prepare args parent_warning) as [e|cfg]; simpl; [reflexivity|].
  unfold bind. pose proof (reconcile_respells_as check_mode cfg (start args server)) as Hr.
  by destruct (reconcile check_mode cfg (start args server)) as [[e|c] w'].
Qed.

End DesiredRecords.

(** ** The action plugin in check mode *)

Section CheckMode.
Import ActionModule ActionSpec.
Context {S : Type} `{Remote S}.

Lemma only_read_snoc (w : world S) rq :
  is_read rq = true → only_read w (World (heap w) (remote w) (calls w ++ [rq])).
Proof. intros Hr. split; [done|]. exists [rq]. simpl. by rewrite Hr. Qed.

Lemma add_repositories_check cfg p w :
  add_repositories true cfg p w
  = (inr (if is_present_or_prune cfg && nonempty (onlyInArgs p)
          then length (onlyInArgs p) else 0), w).
Proof. unfold add_repositories. by case_match. Qed.

Lemma update_repository_check cfg ref n w :
  only_read w (update_repository true cfg ref n w).2.
Proof.
  unfold update_repository, deref, bind at 1. simpl. unfold bind at 1, lift.
  destruct (url_key _) as [e|key]; simpl; [reflexivity|].
  unfold bind, uri_read. simpl.
  destruct (get_repository _ _ _); simpl; [by apply only_read_snoc|].
  case_bool_decide; simpl; by apply only_read_snoc.
Qed.

Lemma update_repositories_check cfg p w :
  only_read w (update_repositories true cfg p w).2.
Proof.
  unfold update_repositories. case_match; [|reflexivity].
  apply (for_fold_preserves only_read). intros. apply update_repository_check.
Qed.

Lemma delete_loop_check cfg total l n (w : world S) :
  for_fold (delete_repository_of true cfg total) l n w
  = (inr (if nonempty l then total else n), w).
Proof.
  revert n. induction l as [|repo l IH]; intros n; simpl; [done|].
  unfold bind at 1. unfold delete_repository_of at 1. unfold bind, ret. simpl.
  rewrite IH. by destruct l.
Qed.

Lemma delete_repositories_check cfg p w :
  only_read w (delete_repositories true cfg p w).2.
Proof.
  unfold delete_repositories, bind, toRemove. simpl. unfold bind, get, ret. simpl.
  rewrite delete_loop_check. reflexivity.
Qed.

Lemma reconcile_check cfg w : only_read w (reconcile true cfg w).2.
Proof.
  unfold reconcile. apply (bind_preserves only_read).
  { by apply only_read_snoc. }
  intros [st m|items] w1; [reflexivity|].
  apply (bind_preserves only_read).
  { unfold on_heap. destruct (sort_repositories _ _). split; [done|].
    exists []. by rewrite app_nil_r. }
  intros p w2. apply (bind_preserves only_read).
  { rewrite add_repositories_check. reflexivity. }
  intros a w3. apply (bind_preserves only_read); [apply update_repositories_check|].
  intros u w4. apply (bind_preserves only_read); [apply delete_repositories_check|].
  reflexivity.
Qed.

Lemma run_check args pw w : only_read w (run true args pw w).2.
Proof.
  unfold run. apply (bind_preserves only_read); [reflexivity|].
  intros cfg w1. apply (bind_preserves only_read); [apply reconcile_check|].
  reflexivity.
Qed.

(** The reads of the update loop, one for each reference. *)
Lemma update_loop_check_calls cfg l n w m w' :
  for_fold (update_repository true cfg) l n w = (inr m, w') →
  ∃ keys,
    Forall2 (λ ref k, ∃ d, heap w !! ref = Some d ∧ d !! "key" = Some (VStr k)) l keys ∧
    calls w' = calls w ++ (GetRepository <$> keys) ∧
    heap w' = heap w ∧ remote w' = remote w.
Proof.
  revert n w. induction l as [|ref l IH]; intros n w Hrun; simpl in Hrun.
  - unfold ret in Hrun. simplify_eq. exists []. by rewrite app_nil_r.
  - apply bind_returns in Hrun as (n' & w1 & Hstep & Hrest).
    apply IH in Hrest as (keys & Hkeys & Hcalls & Hheap & Hremote).
    unfold update_repository, deref, bind at 1 in Hstep. simpl in Hstep.
    unfold bind at 1, lift in Hstep.
    destruct (url_key _) as [e|key] eqn:Hkey; simpl in Hstep; [done|].
    assert (∃ d, heap w !! ref = Some d ∧ d !! "key" = Some (VStr key)) as Hd.
    { unfold url_key, getitem in Hkey. destruct (heap w !! ref) as [d|]; simpl in Hkey.
      - exists d. split; [done|].
        destruct (d !! "key") as [[]|]; simpl in Hkey; by simplify_eq.
      - by rewrite lookup_empty in Hkey. }
    assert (heap w1 = heap w ∧ remote w1 = remote w
            ∧ calls w1 = calls w ++ [GetRepository key]) as (Hh1 & Hr1 & Hc1).
    { unfold bind, uri_read in Hstep. simpl in Hstep.
      destruct (get_repository _ _ _); simpl in Hstep; [done|].
      unfold ret in Hstep. case_bool_decide; simpl in Hstep; by simplify_eq. }
    exists (key :: keys). split_and!.
    + constructor; [done|]. by rewrite <-Hh1.
    + rewrite Hcalls, Hc1. simpl. by rewrite <-(assoc_L (++)).
    + congruence.
    + congruence.
Qed.

End CheckMode.

(** ** C10: check mode still reads *)

Section CheckModeReads.
Import ActionModule ActionSpec.
Context {S : Type} `{Remote S}.

(** When the partition returns: a run in check mode with target state
    Present or Prune that returns has sent, after the listing, exactly
    one read-one GET for each record of [inBoth], in order, under the key
    the record then has, and nothing else; the server is left as it
    was. *)
Theorem check_mode_reads_every_record_in_both
    (args : task_args) (parent_warning : arg (list string)) (server : S)
    (cfg : config) (res : task_result) :
  prepare args parent_warning = inr cfg →
  is_present_or_prune cfg = true →
  (run true args parent_warning (start args server)).1 = inr res →
  let w' := (run true args parent_warning (start args server)).2 in
  ∃ items p keys,
    list_repositories (cfg_uriParams cfg) server = UriOk items ∧
    sort_repositories items (heap (start args server)) = (inr p, heap w') ∧
    Forall2 (λ ref k, ∃ d, heap w' !! ref = Some d ∧ d !! "key" = Some (VStr k))
      (inBoth p) keys ∧
    calls w' = ListRepositories :: (GetRepository <$> keys) ∧
    remote w' = server.
Proof.
  intros Hprep Hstate Hrun w'. subst w'.
  destruct (run true args parent_warning (start args server)) as [r w1] eqn:Hfull.
  simpl in *. subst r. unfold run in Hfull.
  apply bind_returns in Hfull as (cfg' & w0 & Hp & Hfull).
  unfold lift in Hp. rewrite Hprep in Hp. simplify_eq.
  apply bind_returns in Hfull as (c & w1' & Hrec & Hret).
  unfold ret in Hret. simplify_eq. unfold reconcile in Hrec.
  apply bind_returns in Hrec as (r & wa & Hlist & Hrec).
  unfold uri_read in Hlist. simpl in Hlist. simplify_eq.
  destruct (list_repositories _ _) as [st m|items] eqn:Hlist; [done|].
  apply bind_returns in Hrec as (p & wb & Hsort & Hrec).
  unfold on_heap in Hsort. simpl in Hsort.
  destruct (sort_repositories items _) as [r h] eqn:Hsort'. simplify_eq.
  apply bind_returns in Hrec as (a & wc & Hadd & Hrec).
  rewrite add_repositories_check in Hadd. simplify_eq.
  apply bind_returns in Hrec as (u & w2 & Hupd & Hrec).
  apply bind_returns in Hrec as (dl & w3 & Hdel & Hrec).
  unfold ret in Hrec. simplify_eq.
  assert (w1 = w2) as ->.
  { unfold delete_repositories, bind, toRemove in Hdel. simpl in Hdel.
    unfold bind, get, ret in Hdel. simpl in Hdel.
    rewrite delete_loop_check in Hdel. by simplify_eq. }
  assert (∃ keys,
    Forall2 (λ ref k, ∃ d, h !! ref = Some d ∧ d !! "key" = Some (VStr k)) (inBoth p) keys ∧
    calls w2 = [ListRepositories] ++ (GetRepository <$> keys) ∧
    heap w2 = h ∧ remote w2 = server) as (keys & Hkeys & Hcalls & Hheap & Hremote).
  { unfold update_repositories in Hupd. rewrite Hstate in Hupd. simpl in Hupd.
    destruct (inBoth p) as [|ref refs] eqn:Hboth.
    - simpl in Hupd. unfold ret in Hupd. simplify_eq. by exists [].
    - change (nonempty (ref :: refs)) with true in Hupd. cbv iota in Hupd.
      by apply update_loop_check_calls in Hupd. }
  exists items, p, keys. rewrite Hheap. split_and!; try done.
Qed.

End CheckModeReads.

(** The desired records "a" and "b" against a server that holds "A",
    "b" and "z". *)
Lemma check_mode_reads_every_record_in_both_witness :
  let desired := [Examples.repo "a"; Examples.repo "b"] in
  let server : Store.store :=
    [("A", Examples.repo "A"); ("b", Examples.repo "b"); ("z", Examples.repo "z")] in
  let args := Examples.task desired "Present" in
  let w' := (run true args (Given []) (start args server)).2 in
  ∃ items p keys,
    list_repositories (cfg_uriParams (Examples.prepared desired "present")) server
    = UriOk items ∧
    sort_repositories items (heap (start args server)) = (inr p, heap w') ∧
    Forall2 (λ ref k, ∃ d, heap w' !! ref = Some d ∧ d !! "key" = Some (VStr k))
      (inBoth p) keys ∧
    calls w' = ListRepositories :: (GetRepository <$> keys) ∧
    remote w' = server.
Proof.
  intros desired server args.
  apply (check_mode_reads_every_record_in_both args (Given []) server
           (Examples.prepared desired "present") Examples.unchanged).
  - vm_compute. reflexivity.
  - reflexivity.
  - vm_compute. reflexivity.
Defined.

(** C10 fails on the code, by the defect of line 197.  In check mode
    with target state Present, the desired record "a" against a server
    that holds "a" and lists it as Artifactory does: the record is in
    both, yet the partition raises [ValueError] when it removes the
    desired record from the copy of the listing; the listing is the only
    request sent and the record is never read.  On the LDAP endpoint
    [_updateInArtifactory], the other place of the claim, raises
    [TypeError] in check mode before it sends its GET. *)
Theorem check_mode_skips_read_of_matched_record :
  let desired := [Examples.repo "a"] in
  let server := Summaries.Artifactory [("a", Examples.repo "a")] in
  let args := Examples.task desired "Present" in
  let out := run true args (Given []) (start args server) in
  let s := ArtifactoryApi.Session (Examples.ldap_api true) ["a"] [] in
  list_repositories (cfg_uriParams (Examples.prepared desired "present")) server
  = UriOk [{[ "key" := VStr "a"; "type" := VStr "local"; "packageType" := VStr "maven" ]}] ∧
  get_repository (cfg_uriParams (Examples.prepared desired "present")) "a" server
  = UriOk (Examples.repo "a") ∧
  out.1 = inl ValueError ∧
  calls out.2 = [ListRepositories] ∧
  (GetRepository "a" ∉ calls out.2) ∧
  (ArtifactoryLDAP._updateInArtifactory (Examples.ldap_record (Examples.ldap "a" true)) s
   = (inl TypeError, s)).
Proof.
  cbv zeta. split_and!; try (vm_compute; reflexivity).
  vm_compute. intros Hin. apply list_elem_of_singleton in Hin. discriminate.
Qed.

(** ** C4: Prune with an empty desired list *)

Section Prune.
Context {S : Type} `{Remote S}.

Lemma url_key_keyed (d : dict) (k : string) :
  d !! "key" = Some (VStr k) → url_key d = inr k.
Proof. intros Hk. unfold url_key, getitem. by rewrite Hk. Qed.

Lemma delete_step_sends cfg total d k n (w : world S) :
  d !! "key" = Some (VStr k) →
  (delete_repository (cfg_uriParams cfg) k (remote w)).1 = UriOk tt →
  delete_repository_of false cfg total d n w
  = (inr total,
     World (heap w) (delete_repository (cfg_uriParams cfg) k (remote w)).2
       (calls w ++ [DeleteRepository k])).
Proof.
  intros Hk Hok. unfold delete_repository_of, bind, lift, uri_write, ret.
  rewrite (url_key_keyed d k Hk).
  destruct (delete_repository (cfg_uriParams cfg) k (remote w)) as [r s'].
  simpl in *. by subst r.
Qed.

(** The delete loop outside check mode, when the server accepts every
    delete. *)
Lemma delete_loop_sends cfg total items keys n (w : world S) :
  Forall2 (λ d k, d !! "key" = Some (VStr k)) items keys →
  (∀ k s, (delete_repository (cfg_uriParams cfg) k s).1 = UriOk tt) →
  for_fold (delete_repository_of false cfg total) items n w
  = (inr (if nonempty items then total else n),
     World (heap w)
       (foldl (λ s k, (delete_repository (cfg_uriParams cfg) k s).2) (remote w) keys)
       (calls w ++ (DeleteRepository <$> keys))).
Proof.
  intros Hkeys Hok. revert n w.
  induction Hkeys as [|d k items keys Hk _ IH]; intros n w; simpl.
  - rewrite app_nil_r. by destruct w.
  - erewrite bind_inr; [|by apply delete_step_sends].
    rewrite IH. simpl. rewrite <-(assoc_L (++)). simpl. by destruct items.
Qed.


End Prune.


(** ** C1: the partition of the action plugin *)

(** X16: one desired record against one listed record with the same key up
    to case: the partition returns only when the desired record, once
    its key is respelled, equals the listed record in every field. *)
Lemma sort_single_match (d item : dict) (kd ki : value) :
  d !! "key" = Some kd → item !! "key" = Some ki →
  lower (str ki) = lower (str kd) →
  sort_repositories [item] [d]
  = (if bool_decide (item = <["key" := ki]> d)
     then inr (Parts [] [0] [])
     else inl ValueError,
     [<["key" := ki]> d]).
Proof.
  intros Hd Hi Heq. unfold sort_repositories, bind, get. simpl.
  unfold bind, sort_item, bind, get, lift, put, raise, ret. simpl.
  unfold getitem. rewrite Hd, Hi. simpl.
  rewrite (proj2 (String.eqb_eq _ _) Heq). simpl.
  rewrite bool_decide_eq_true_2 by done. simpl.
  by case_bool_decide.
Qed.

(** [_sortConfigs] with a list that holds at least one record raises
    [AttributeError] whatever the second argument: a tuple or a record
    has no [copy]; against an empty list the record is asked for
    [copy]; against any other list [__eq__] asks it for [ConfigRecord]. *)
Lemma sortConfigs_raises (item : ArtifactoryApi.ConfigRecord)
    (items : list ArtifactoryApi.ConfigRecord) (B : ArtifactoryApi.pyobj) :
  ArtifactoryApi._sortConfigs (ArtifactoryApi.PyList (item :: items)) B = inl AttributeError.
Proof. destruct B as [[|x l]|l|r]; reflexivity. Qed.

(** C1 fails on the code: line 197 removes [repo], the desired record,
    from the copy of the listing, where the listed [item] was meant.
    With the desired record "a" and the listing Artifactory gives for a
    repository "a", the keys match, no listed record equals the desired
    one, and the partition raises [ValueError] instead of returning
    [inBoth = [a]]; so does the run.  The partition of the API,
    [_sortConfigs], raises [AttributeError] on the same two records. *)
Theorem partition_raises_on_unequal_match :
  sort_repositories [Examples.summary "a"] [Examples.repo "a"]
  = (inl ValueError, [Examples.repo "a"]) ∧
  (Examples.play false [Examples.repo "a"] "Present" [("a", Examples.summary "a")]).1
  = inl ValueError ∧
  ArtifactoryApi._sortConfigs
    (ArtifactoryApi.PyList [Examples.ldap_record (Examples.repo "a")])
    (ArtifactoryApi.PyList [Examples.ldap_record (Examples.summary "a")])
  = inl AttributeError.
Proof. split_and!; vm_compute; reflexivity. Qed.

(** ** C8: Present, twice *)

(** C8 fails on the code, by the defect of line 197.  Against a server
    that lists summaries and starts empty, the first run with target
    state Present creates "r1" and reports [changed]; the second run, on
    the same input, finds "r1" listed, does not find the desired record
    itself in the listing, and raises [ValueError] where [changed =
    false] is claimed.  Against the reference server holding "r1" with
    another description, the first run raises already, and so does the
    second. *)
Theorem present_twice_raises :
  (let desired := [Examples.repo "r1"] in
   let args := Examples.task desired "Present" in
   let first := run false args (Given []) (start args (Summaries.Artifactory [])) in
   let second := run false args (Given []) (start args (remote first.2)) in
   first.1 = inr Examples.one_added ∧
   calls first.2 = [ListRepositories; PutRepository "r1" (Examples.repo "r1")] ∧
   second.1 = inl ValueError) ∧
  (let desired := [Examples.described "r1" "new"] in
   let server : Store.store := [("r1", Examples.described "r1" "old")] in
   let first := Examples.play false desired "Present" server in
   let second := Examples.play false desired "Present" (remote first.2) in
   first.1 = inl ValueError ∧ remote first.2 = server ∧ second.1 = inl ValueError).
Proof. cbv zeta. split_and!; vm_compute; reflexivity. Qed.

(** ** C2: deep equality in [ArtifactoryApi] *)

Section DeepEquals.
Import ArtifactoryApi.

Lemma compare_key_field_same_key keys self other v :
  json_item (record self) "key" = inr v →
  json_item (record other) "key" = inr v →
  compare_key_field keys self other = inr true.
Proof.
  intros Hs Ho. induction keys as [|key keys IH]; simpl; [done|].
  rewrite Ho, Hs. simpl. by rewrite bool_decide_eq_false_2 by (intros Hne; by apply Hne).
Qed.

(** C2 fails on the code of [ConfigRecord.deepEquals]: for the records
    {key: a, enabled: true} and {key: a, enabled: false}, which differ,
    the method raises [AttributeError] at [self.ConfigRecord]; and its
    loop, whatever the field names it runs over, compares the field
    ['key'] only and answers that the records are equal. *)
Theorem deepEquals_ignores_fields :
  let future := Examples.ldap_record (Examples.ldap "a" true) in
  let actual := Examples.ldap_record (Examples.ldap "a" false) in
  record future ≠ record actual ∧
  deepEquals future actual = inl AttributeError ∧
  ∀ keys, compare_key_field keys future actual = inr true.
Proof.
  split_and!.
  - intros Heq.
    apply (f_equal (λ j, match j with JObject d => d !! "enabled" | _ => None end)) in Heq.
    vm_compute in Heq. discriminate.
  - vm_compute. reflexivity.
  - intros keys. by apply (compare_key_field_same_key _ _ _ (VStr "a")).
Qed.

End DeepEquals.

(** ** C5: certificate validation in [ArtifactoryApi] *)

Section Certificates.
Import ArtifactoryApi.
Context {S : Type} `{Transport S}.

(** C5 fails on the code of [ArtifactoryApi._sendRequest]: the request
    is built with [validate_certs = self.ignore_ca_error], the flag
    itself and not its negation.  An object built with the default
    ([ignore_ca_error] not passed) has the flag false, and every request
    it sends has certificate validation switched off. *)
Theorem sendRequest_validates_when_told_to_ignore
    (recordKeyList : list string) (url token urltail method : string)
    (content : option json) (s : session S) :
  (validate_certs ∘ sent_request <$>
     wire (_sendRequest urltail (Some method) content s).2)
  = (validate_certs ∘ sent_request <$> wire s) ++ [ignore_ca_error (self s)] ∧
  ∃ a, ArtifactoryApi.__init__ recordKeyList url "accesstoken" token None None = inr a ∧
       ignore_ca_error a = false ∧
       (validate_certs ∘ sent_request <$>
          wire (_sendRequest urltail (Some method) content (Session a (server s) [])).2)
       = [false].
Proof.
  assert (∀ s : session S,
    (validate_certs ∘ sent_request <$>
       wire (_sendRequest urltail (Some method) content s).2)
    = (validate_certs ∘ sent_request <$> wire s) ++ [ignore_ca_error (self s)]) as Hsend.
  { intros s0. unfold _sendRequest, bind, get, put, lift. simpl.
    destruct (open_url _ _) as [r srv]. simpl. by rewrite fmap_app. }
  split; [apply Hsend|].
  eexists. split; [reflexivity|]. split; [reflexivity|]. by rewrite Hsend.
Qed.

End Certificates.

(** ** C6: the three operations of [ArtifactoryApi] on the LDAP endpoint *)

Section LdapOperations.
Import ArtifactoryApi.

Lemma prefix_refl (s : string) : String.prefix s s = true.
Proof.
  induction s as [|a s IH]; simpl; [done|].
  by destruct (Ascii.ascii_dec a a).
Qed.

Lemma contains_suffix (sub pre : string) : contains sub (pre ++ sub)%string = true.
Proof.
  induction pre as [|a pre IH]; simpl.
  - destruct sub as [|a sub']; [reflexivity|].
    change (String.prefix (String a sub') (String a sub')
            || contains (String a sub') sub' = true).
    by rewrite prefix_refl.
  - rewrite IH. apply orb_true_r.
Qed.

Lemma load_configs_returns (configs : list dict) (s : session (list string)) :
  ∃ s', load_configs configs s = (inr tt, s') ∧ server s' = server s ∧ wire s' = wire s.
Proof.
  revert s. induction configs as [|config configs IH]; intros s; simpl.
  - by exists s.
  - destruct (IH (Session (set_configs (self s) (PyConfigRecord
                 {| record := JObject config; _keylist := keyList (self s) |}))
                 (server s) (wire s))) as (s' & Hs' & Hsrv & Hwire).
    exists s'. split; [|done]. rewrite <-Hs'. reflexivity.
Qed.

Lemma getattr_tuple (l : list ConfigRecord) (name : string) :
  name = "copy" ∨ name = "append" → getattr (PyTuple l) name = inl AttributeError.
Proof. by intros [-> | ->]. Qed.

(** Fetching and sorting raises whatever the server lists: with no
    name, [copy] is asked of the empty tuple; with a name, [append] is. *)
Lemma sorted_raises (s : session (list string)) : (sorted s).1 = inl AttributeError.
Proof.
  unfold sorted, _getConfigRecordListFromArtifactory. simpl.
  unfold ArtifactoryLDAP._getConfigRecordListFromArtifactory, _sendRequest.
  unfold bind, get, put, lift, ret. simpl. rewrite contains_suffix.
  destruct (server s) as [|name names] eqn:Hsrv; simpl.
  - reflexivity.
  - reflexivity.
Qed.

(** C6 fails on the code: against a server that answers every request,
    each of the three operations raises [AttributeError], an error
    outside those the specification names, for every list of desired
    records, every API object and every state of the server. *)
Theorem ldap_operations_always_raise (configs : list dict) (s : session (list string)) :
  (applyConfigs configs s).1 = inl AttributeError ∧
  (deleteConfigs configs s).1 = inl AttributeError ∧
  (pruneConfigs configs s).1 = inl AttributeError.
Proof.
  destruct (load_configs_returns configs s) as (s' & Hload & _ & _).
  pose proof (sorted_raises s') as Hsorted.
  destruct (sorted s') as [[e|p] s''] eqn:Hs; simpl in Hsorted; [|done]. simplify_eq.
  unfold applyConfigs, deleteConfigs, pruneConfigs.
  split_and!; (erewrite bind_inr; [|exact Hload]); by (erewrite bind_inl; [|exact Hs]).
Qed.

End LdapOperations.

(** ** C7: duplicate keys *)

(** C7 fails on the code.  The LDAP module has no check for duplicate
    keys: [run_module] on the settings "Foo" and "foo" raises
    [TypeError] while it builds the API object, and [applyConfigs] on an
    API object already built sends the listing request before anything
    is checked, then raises [AttributeError].  The action plugin has the
    check, but reads the required fields with [repo['field']] first: for
    the records {key: Foo} and {key: foo} it raises [KeyError], not the
    validation error. *)
Theorem duplicate_keys_not_always_rejected :
  let settings := [Examples.ldap "Foo" true; Examples.ldap "foo" true] in
  let fresh := ArtifactoryApi.Session (Examples.ldap_api false) ["setting"] [] in
  (ArtifactoryLDAP.run_module (Examples.ldap_params settings "Present") false fresh).1
  = inl TypeError ∧
  (let out := ArtifactoryApi.applyConfigs settings fresh in
   out.1 = inl AttributeError ∧
   (λ c, (ArtifactoryApi.sent_method c, ArtifactoryApi.sent_url c))
   <$> ArtifactoryApi.wire out.2
   = [("GET", "https://artifactory.example.com/artifactory/api/plugins/execute/getLdapSettingsList");
      ("GET", "https://artifactory.example.com/artifactory/api/plugins/execute/getLdapSetting?params=key=setting")]) ∧
  (let out := Examples.play false [Examples.bare "Foo"; Examples.bare "foo"] "Present" [] in
   out.1 = inl (KeyError "packageType") ∧ calls out.2 = []).
Proof. cbv zeta. split_and!; vm_compute; reflexivity. Qed.

(** ** C3: check mode against a real run *)

Section Validation.

Lemma keyed_lower_key (d : dict) (k : string) :
  d !! "key" = Some (VStr k) → lower_key d = lower k.
Proof. intros Hk. unfold lower_key. by rewrite Hk. Qed.

Lemma unique_against_distinct (r1 : dict) (rest : list dict) :
  keyed r1 → Forall keyed rest → unique_against r1 rest = inr tt →
  lower_key r1 ∉ lower_key <$> rest.
Proof.
  intros [k1 Hk1] Hrest. induction Hrest as [|r2 rest [k2 Hk2] _ IH]; simpl.
  - intros _. apply not_elem_of_nil.
  - unfold getitem. rewrite Hk1, Hk2. simpl.
    destruct (String.eqb (lower k1) (lower k2)) eqn:Heq; [done|].
    intros Hu. apply not_elem_of_cons. split; [|by apply IH].
    rewrite (keyed_lower_key r1 k1), (keyed_lower_key r2 k2) by done.
    by apply String.eqb_neq.
Qed.

Lemma unique_keys_distinct (configs : list dict) :
  Forall keyed configs → unique_keys configs = inr tt → NoDup (lower_key <$> configs).
Proof.
  induction 1 as [|r1 rest Hr1 Hrest IH]; simpl; [intros; constructor|].
  destruct (unique_against r1 rest) as [e|[]] eqn:Hu; simpl; [done|].
  intros Hrec. constructor; [by apply unique_against_distinct|by apply IH].
Qed.

(** What a successful [prepare] says about the records. *)
Lemma prepare_unique (args : task_args) (pw : arg (list string)) (cfg : config) :
  prepare args pw = inr cfg →
  ∃ configs, repository_configs args = Given configs ∧ unique_keys configs = inr tt.
Proof.
  unfold prepare. destruct (repository_configs args) as [| |configs]; simpl; [done..|].
  destruct (each required_fields configs) as [e|[]]; simpl; [done|].
  destruct (unique_keys configs) as [e|[]] eqn:Hu; simpl; [done|].
  intros _. by exists configs.
Qed.

End Validation.

Section Sorting.

Lemma remove_first_split {A} (p : A → bool) (l l' : list A) :
  remove_first p l = Some l' →
  ∃ l1 x l2, l = l1 ++ x :: l2 ∧ l' = l1 ++ l2 ∧ p x = true.
Proof.
  revert l'. induction l as [|y l IH]; intros l'; simpl; [done|].
  destruct (p y) eqn:Hp.
  - intros ?; simplify_eq. by exists [], y, l'.
  - destruct (remove_first p l) as [l0|]; simpl; [|done].
    intros ?; simplify_eq. destruct (IH l0 eq_refl) as (l1 & x & l2 & -> & -> & Hx).
    by exists (y :: l1), x, l2.
Qed.

Lemma NoDup_moved (l1 l2 ib : list nat) (i : nat) :
  NoDup ((l1 ++ i :: l2) ++ ib) → NoDup ((l1 ++ l2) ++ ib ++ [i]).
Proof.
  intros Hn. eapply NoDup_Permutation_proper; [|exact Hn].
  rewrite (assoc_L (++)). rewrite <-Permutation_cons_append.
  rewrite <-(assoc_L (++) l1). simpl. rewrite <-(assoc_L (++) l1).
  by rewrite Permutation_middle.
Qed.

(** A loop keeps what each of its turns keeps. *)
Lemma for_fold_invariant {Σ A B} (I : Σ → B → Prop) (P : A → Prop)
    (body : A → B → M Σ B) (l : list A) :
  (∀ x b σ b' σ', P x → I σ b → body x b σ = (inr b', σ') → I σ' b') →
  Forall P l →
  ∀ b σ b' σ', I σ b → for_fold body l b σ = (inr b', σ') → I σ' b'.
Proof.
  intros Hbody Hl. induction Hl as [|x l Hx _ IH]; intros b σ b' σ' HI; simpl.
  - unfold ret. intros ?; by simplify_eq.
  - intros Hrun. apply bind_returns in Hrun as (b1 & σ1 & Hstep & Hrest).
    eapply IH; [|exact Hrest]. by eapply Hbody.
Qed.

(** Two references to records with the same key, up to case, are one. *)
Lemma same_lower_key_same_ref (h : list dict) (i j : nat) (d d' : dict) :
  NoDup (lower_key <$> h) → h !! i = Some d → h !! j = Some d' →
  lower_key d = lower_key d' → i = j.
Proof.
  intros Hnd Hi Hj Heq. eapply NoDup_lookup; [exact Hnd| |].
  - by rewrite list_lookup_fmap, Hi.
  - by rewrite list_lookup_fmap, Hj, Heq.
Qed.

Lemma sort_item_sorting (i : nat) (item : dict) (p p' : parts) (h h' : list dict) :
  keyed item → sorting h p → sort_item i item p h = (inr p', h') → sorting h' p'.
Proof.
  intros [ki Hki] (Hkeyed & Hnd & Hrefs & Hsome & Hart).
  unfold sort_item, bind, get, lift, put, raise, ret. simpl.
  destruct (h !! i) as [repo|] eqn:Hi; simpl.
  2:{ intros ?; simplify_eq. by repeat split. }
  destruct (Forall_lookup_1 _ _ _ _ Hkeyed Hi) as [kr Hkr].
  unfold getitem. rewrite Hki, Hkr. simpl.
  destruct (String.eqb (lower ki) (lower kr)) eqn:Heq; simpl.
  2:{ intros ?; simplify_eq. by repeat split. }
  apply String.eqb_eq in Heq.
  destruct (remove_first _ (onlyInArgs p)) as [oa'|] eqn:Hoa; simpl; [|done].
  destruct (remove_first _ (onlyInArtifactory p)) as [art'|] eqn:Hrm; simpl; [|done].
  intros ?; simplify_eq.
  apply remove_first_split in Hoa as (l1 & j & l2 & Hoa & -> & Hj).
  apply remove_first_split in Hrm as (a1 & x & a2 & Hrm & -> & _).
  apply bool_decide_eq_true_1 in Hj.
  assert (j = i) as -> by (by eapply same_lower_key_same_ref).
  set (repo' := <["key" := VStr ki]> repo).
  assert (lower_key repo' = lower_key repo) as Hlk.
  { rewrite (keyed_lower_key repo' ki) by apply lookup_insert_eq.
    by rewrite (keyed_lower_key repo kr). }
  unfold sorting. simpl. rewrite Hoa in Hrefs, Hsome. split_and!.
  - apply Forall_insert; [done|]. exists ki. apply lookup_insert_eq.
  - rewrite list_fmap_insert, Hlk. rewrite list_insert_id; [done|].
    by rewrite list_lookup_fmap, Hi.
  - by apply NoDup_moved.
  - assert (∀ ref, is_Some (h !! ref) → is_Some (<[i:=repo']> h !! ref)) as Hstill.
    { intros ref Hs. apply lookup_lt_is_Some. rewrite length_insert.
      by apply lookup_lt_is_Some. }
    rewrite !Forall_app in Hsome. rewrite Forall_cons in Hsome.
    destruct Hsome as [(Hl1 & Hsi & Hl2) Hib].
    rewrite !Forall_app, Forall_singleton.
    split_and!; try (eapply Forall_impl; [eassumption|done]).
    by apply Hstill.
  - rewrite Hrm in Hart. rewrite Forall_app, Forall_cons in Hart.
    destruct Hart as (Ha1 & _ & Ha2). rewrite Forall_app. by split.
Qed.

Lemma sort_repositories_sorting (items : list dict) (h h' : list dict) (p : parts) :
  Forall keyed h → NoDup (lower_key <$> h) → Forall keyed items →
  sort_repositories items h = (inr p, h') → sorting h' p.
Proof.
  intros Hkeyed Hnd Hitems. unfold sort_repositories. unfold bind at 1, get. simpl.
  apply (for_fold_invariant sorting (λ _, True)).
  - intros i p0 h0 p1 h1 _ Hs. apply (for_fold_invariant sorting keyed); [|done..].
    intros. by eapply sort_item_sorting.
  - by apply Forall_true.
  - unfold sorting. simpl. rewrite app_nil_r. split_and!; try done.
    + apply NoDup_seq.
    + apply Forall_forall. intros ref Href. apply lookup_lt_is_Some.
      apply elem_of_seq in Href. lia.
Qed.

End Sorting.

Section Phases.
Context {S : Type} `{Remote S} (Hstore : keyed_store S).

Lemma deref_key_at (w : world S) (ref : nat) (d : dict) :
  heap w !! ref = Some d → deref ref w = (inr d, w).
Proof. intros Hd. unfold deref. by rewrite Hd. Qed.

(** One creation outside check mode. *)
Lemma add_step_wet cfg ref (w : world S) d k :
  heap w !! ref = Some d → d !! "key" = Some (VStr k) →
  add_repository cfg ref w
  = (inr tt, World (heap w) (put_repository (cfg_uriParams cfg) k d (remote w)).2
               (calls w ++ [PutRepository k d])).
Proof.
  intros Hd Hk. unfold add_repository.
  erewrite bind_inr; [|by apply deref_key_at].
  unfold bind, lift, uri_write. rewrite (url_key_keyed d k Hk).
  pose proof (put_succeeds S Hstore (cfg_uriParams cfg) k d (remote w)) as Hok.
  destruct (put_repository (cfg_uriParams cfg) k d (remote w)) as [r s'].
  simpl in *. by subst r.
Qed.

(** The creations outside check mode return and leave what is read
    under every other key as it was. *)
Lemma add_loop_wet cfg (refs : list nat) (w : world S) :
  Forall (λ ref, ∃ k, key_at (heap w) ref k) refs →
  ∃ w', for_each (add_repository cfg) refs w = (inr tt, w') ∧
        heap w' = heap w ∧
        ∀ k, (∀ ref, ref ∈ refs → ¬ key_at (heap w) ref k) →
             get_repository (cfg_uriParams cfg) k (remote w')
             = get_repository (cfg_uriParams cfg) k (remote w).
Proof.
  intros Hrefs. revert w Hrefs.
  induction refs as [|ref refs IH]; intros w Hrefs; simpl.
  - by exists w.
  - apply Forall_cons in Hrefs as [(k0 & d & Hd & Hk0) Hrefs].
    erewrite bind_inr; [|by eapply add_step_wet].
    destruct (IH (World (heap w) (put_repository (cfg_uriParams cfg) k0 d (remote w)).2
                    (calls w ++ [PutRepository k0 d])) Hrefs) as (w' & Hrun & Hheap & Hget).
    exists w'. split_and!; [done..|]. simpl in *.
    intros k Hfresh. rewrite Hget.
    + apply (get_put_other S Hstore). intros ->.
      apply (Hfresh ref); [by left|]. by exists d.
    + intros r Hr. apply Hfresh. by right.
Qed.

(** One turn of the update loop, in check mode and outside. *)
Lemma update_step_dry cfg ref n (w : world S) d k :
  heap w !! ref = Some d → d !! "key" = Some (VStr k) →
  update_repository true cfg ref n w
  = (match get_repository (cfg_uriParams cfg) k (remote w) with
     | UriFailed status message =>
         inl (failure ("Querying repository config for " ++ k ++ " in artifactory")%string
                status message)
     | UriOk currentConfig =>
         inr (if bool_decide (d ∪ currentConfig ≠ currentConfig) then n + 1 else n)
     end,
     World (heap w) (remote w) (calls w ++ [GetRepository k])).
Proof.
  intros Hd Hk. unfold update_repository.
  erewrite bind_inr; [|by apply deref_key_at].
  unfold bind, lift, uri_read. rewrite (url_key_keyed d k Hk). simpl.
  destruct (get_repository _ _ _); [done|]. by case_bool_decide.
Qed.

Lemma update_step_wet cfg ref n (w : world S) d k :
  heap w !! ref = Some d → d !! "key" = Some (VStr k) →
  ∃ w', update_repository false cfg ref n w
        = (match get_repository (cfg_uriParams cfg) k (remote w) with
           | UriFailed status message =>
               inl (failure ("Querying repository config for " ++ k ++ " in artifactory")%string
                      status message)
           | UriOk currentConfig =>
               inr (if bool_decide (d ∪ currentConfig ≠ currentConfig) then n + 1 else n)
           end, w') ∧
        heap w' = heap w ∧
        (remote w' = remote w ∨
         remote w' = (post_repository (cfg_uriParams cfg) k d (remote w)).2).
Proof.
  intros Hd Hk. unfold update_repository.
  erewrite bind_inr; [|by apply deref_key_at].
  unfold bind, lift, uri_read, uri_write. rewrite (url_key_keyed d k Hk). simpl.
  destruct (get_repository _ _ _) as [st m|cur];
    [eexists; split_and!; [reflexivity|done|by left]|].
  case_bool_decide; [|eexists; split_and!; [reflexivity|done|by left]].
  simpl.
  pose proof (post_succeeds S Hstore (cfg_uriParams cfg) k d (remote w)) as Hok.
  destruct (post_repository (cfg_uriParams cfg) k d (remote w)) as [r s'].
  simpl in *. subst r. simpl. eexists; split_and!; [reflexivity|done|by right].
Qed.

(** The update loop decides the same in check mode and outside, when the
    two servers answer alike under the keys still to be read. *)
Lemma update_loop_agree cfg (refs : list nat) :
  ∀ n (wd ww : world S),
    heap wd = heap ww →
    NoDup (lower_key <$> heap ww) →
    NoDup refs →
    Forall (λ ref, ∃ k, key_at (heap ww) ref k) refs →
    (∀ ref k, ref ∈ refs → key_at (heap ww) ref k →
       get_repository (cfg_uriParams cfg) k (remote wd)
       = get_repository (cfg_uriParams cfg) k (remote ww)) →
    (for_fold (update_repository true cfg) refs n wd).1
    = (for_fold (update_repository false cfg) refs n ww).1.
Proof.
  induction refs as [|ref refs IH]; intros n wd ww Hheap Hnd Hrefs Hkeys Hagree; [done|].
  apply NoDup_cons in Hrefs as [Hfresh Hrefs].
  apply Forall_cons in Hkeys as [(k & d & Hd & Hk) Hkeys].
  simpl. unfold bind.
  rewrite (update_step_dry cfg ref n wd d k) by (by rewrite ?Hheap).
  destruct (update_step_wet cfg ref n ww d k Hd Hk) as (ww' & -> & Hheap' & Hremote).
  rewrite (Hagree ref k) by (by left || by exists d).
  destruct (get_repository (cfg_uriParams cfg) k (remote ww)) as [st m|cur]; [done|].
  apply IH; simpl; rewrite ?Hheap'; try done.
  intros ref' k' Hin (d' & Hd' & Hk').
  assert (k' ≠ k) as Hne.
  { intros ->. apply Hfresh.
    assert (ref' = ref) as ->; [|done].
    eapply (same_lower_key_same_ref (heap ww)); [done..|].
    by rewrite (keyed_lower_key d' k), (keyed_lower_key d k). }
  rewrite (Hagree ref' k') by (by right || by exists d').
  destruct Hremote as [-> | ->]; [done|].
  symmetry. by apply (get_post_other S Hstore).
Qed.

End Phases.

Section DryRun.
Context {S : Type} `{Remote S} (Hstore : keyed_store S).

Lemma keyed_all_keys (l : list dict) :
  Forall keyed l → ∃ keys, Forall2 (λ d k, d !! "key" = Some (VStr k)) l keys.
Proof.
  induction 1 as [|d l [k Hk] _ [keys IH]]; [by exists []|].
  exists (k :: keys). by constructor.
Qed.

Lemma sorting_key_at (h : list dict) (p : parts) (ref : nat) :
  sorting h p → ref ∈ onlyInArgs p ++ inBoth p → ∃ k, key_at h ref k.
Proof.
  intros (Hkeyed & _ & _ & Hsome & _) Hin.
  destruct (proj1 (Forall_forall _ _) Hsome ref Hin) as [d Hd].
  destruct (Forall_lookup_1 _ _ _ _ Hkeyed Hd) as [k Hk].
  exists k, d. done.
Qed.

Lemma add_phase_wet cfg (p : parts) (w : world S) :
  sorting (heap w) p →
  ∃ w', add_repositories false cfg p w
        = (inr (if is_present_or_prune cfg && nonempty (onlyInArgs p)
                then length (onlyInArgs p) else 0), w') ∧
        heap w' = heap w ∧
        ∀ k, (∀ ref, ref ∈ onlyInArgs p → ¬ key_at (heap w) ref k) →
             get_repository (cfg_uriParams cfg) k (remote w')
             = get_repository (cfg_uriParams cfg) k (remote w).
Proof.
  intros Hs. unfold add_repositories.
  destruct (is_present_or_prune cfg && nonempty (onlyInArgs p)); [|by exists w].
  destruct (add_loop_wet Hstore cfg (onlyInArgs p) w) as (w' & Hrun & Hheap & Hget).
  { apply Forall_forall. intros ref Hin. eapply sorting_key_at; [done|].
    apply elem_of_app. by left. }
  exists w'. split_and!; [|done..]. by erewrite bind_inr.
Qed.

Lemma update_phase_agree cfg (p : parts) (wd ww : world S) :
  heap wd = heap ww → sorting (heap ww) p →
  (∀ ref k, ref ∈ inBoth p → key_at (heap ww) ref k →
     get_repository (cfg_uriParams cfg) k (remote wd)
     = get_repository (cfg_uriParams cfg) k (remote ww)) →
  (update_repositories true cfg p wd).1 = (update_repositories false cfg p ww).1.
Proof.
  intros Hheap Hs Hagree. unfold update_repositories.
  destruct (is_present_or_prune cfg && nonempty (inBoth p)); [|done].
  pose proof Hs as (_ & Hnd & Hrefs & _ & _).
  apply (update_loop_agree Hstore); try done.
  - by apply NoDup_app in Hrefs as (_ & _ & ?).
  - apply Forall_forall. intros ref Hin. eapply sorting_key_at; [done|].
    apply elem_of_app. by right.
Qed.

Lemma toRemove_returns cfg (p : parts) (w : world S) :
  toRemove cfg p w
  = (inr (if String.eqb (cfg_state cfg) "prune" && nonempty (onlyInArtifactory p)
          then onlyInArtifactory p
          else if String.eqb (cfg_state cfg) "absent" && nonempty (inBoth p)
               then (λ ref, default ∅ (heap w !! ref)) <$> inBoth p
               else []), w).
Proof. reflexivity. Qed.

Lemma delete_phase_agree cfg (p : parts) (wd ww : world S) :
  heap wd = heap ww → sorting (heap ww) p →
  (delete_repositories true cfg p wd).1 = (delete_repositories false cfg p ww).1.
Proof.
  intros Hheap (Hkeyed & _ & _ & Hsome & Hart).
  unfold delete_repositories.
  erewrite (bind_inr (toRemove cfg p) _ wd); [|apply toRemove_returns].
  erewrite (bind_inr (toRemove cfg p) _ ww); [|apply toRemove_returns].
  rewrite Hheap. rewrite delete_loop_check.
  match goal with |- context [for_fold _ ?l 0 ww] => set (removed := l) end.
  assert (Forall keyed removed) as Hremoved.
  { subst removed.
    destruct (String.eqb (cfg_state cfg) "prune" && nonempty (onlyInArtifactory p));
      [done|].
    destruct (String.eqb (cfg_state cfg) "absent" && nonempty (inBoth p));
      [|by constructor].
    apply Forall_fmap, Forall_forall. intros ref Hin. simpl.
    destruct (proj1 (Forall_forall _ _) Hsome ref) as [d Hd].
    { apply elem_of_app. by right. }
    unfold compose. rewrite Hd. simpl. exact (Forall_lookup_1 _ _ _ _ Hkeyed Hd). }
  destruct (keyed_all_keys removed Hremoved) as [keys Hkeys].
  rewrite (delete_loop_sends cfg _ removed keys 0 ww Hkeys); [done|].
  intros. apply (delete_succeeds S Hstore).
Qed.

(** Once the records are sorted, check mode and a real run count the
    same, or stop on the same error. *)
Lemma after_sort_agree cfg (p : parts) (w : world S) :
  sorting (heap w) p →
  ((added <- add_repositories true cfg p;;
    updated <- update_repositories true cfg p;;
    deleted <- delete_repositories true cfg p;;
    ret (Counts added updated deleted)) w).1
  = ((added <- add_repositories false cfg p;;
      updated <- update_repositories false cfg p;;
      deleted <- delete_repositories false cfg p;;
      ret (Counts added updated deleted)) w).1.
Proof.
  intros Hs. pose proof Hs as (_ & Hnd & Hrefs & _ & _).
  destruct (add_phase_wet cfg p w Hs) as (w1 & Hadd & Hheap1 & Hget).
  erewrite (bind_inr (add_repositories true cfg p)); [|apply add_repositories_check].
  erewrite (bind_inr (add_repositories false cfg p)); [|exact Hadd].
  assert ((update_repositories true cfg p w).1 = (update_repositories false cfg p w1).1)
    as Hupd.
  { apply update_phase_agree; [done|by rewrite Hheap1|]. rewrite Hheap1.
    intros ref k Hin (d & Hd & Hk). symmetry. apply Hget.
    intros ref' Hin' (d' & Hd' & Hk').
    assert (ref' = ref) as ->.
    { eapply (same_lower_key_same_ref (heap w)); [done..|].
      by rewrite (keyed_lower_key d' k), (keyed_lower_key d k). }
    apply NoDup_app in Hrefs as (_ & Hdisj & _). by apply (Hdisj ref). }
  pose proof (update_repositories_heap true cfg p w) as Hh2.
  pose proof (update_repositories_heap false cfg p w1) as Hh3.
  destruct (update_repositories true cfg p w) as [[e|u] w2] eqn:Hud;
    destruct (update_repositories false cfg p w1) as [[e'|u'] w3] eqn:Huw;
    simpl in Hupd; simplify_eq.
  { erewrite (bind_inl (update_repositories true cfg p)); [|exact Hud].
    by erewrite (bind_inl (update_repositories false cfg p)); [|exact Huw]. }
  erewrite (bind_inr (update_repositories true cfg p)); [|exact Hud].
  erewrite (bind_inr (update_repositories false cfg p)); [|exact Huw].
  unfold same_heap in Hh2, Hh3. simpl in Hh2, Hh3.
  assert ((delete_repositories true cfg p w2).1 = (delete_repositories false cfg p w3).1)
    as Hdel.
  { apply delete_phase_agree; [congruence|]. by rewrite Hh3, Hheap1. }
  destruct (delete_repositories true cfg p w2) as [[e1|dl] w4] eqn:Hdd;
    destruct (delete_repositories false cfg p w3) as [[e2|dl'] w5] eqn:Hdw;
    simpl in Hdel; simplify_eq.
  { erewrite (bind_inl (delete_repositories true cfg p)); [|exact Hdd].
    by erewrite (bind_inl (delete_repositories false cfg p)); [|exact Hdw]. }
  erewrite (bind_inr (delete_repositories true cfg p)); [|exact Hdd].
  by erewrite (bind_inr (delete_repositories false cfg p)); [|exact Hdw].
Qed.

Lemma reconcile_check_agrees cfg (w : world S) :
  Forall keyed (heap w) → NoDup (lower_key <$> heap w) →
  (reconcile true cfg w).1 = (reconcile false cfg w).1.
Proof.
  intros Hkeyed Hnd. unfold reconcile.
  do 2 (erewrite (bind_inr (uri_read _ _)); [|reflexivity]).
  destruct (list_repositories (cfg_uriParams cfg) (remote w)) as [st m|items] eqn:Hlist;
    [done|].
  set (w1 := World (heap w) (remote w) (calls w ++ [ListRepositories])).
  destruct (sort_repositories items (heap w)) as [[e|p] h] eqn:Hsort.
  - assert (on_heap (sort_repositories items) w1 = (inl e, World h (remote w) (calls w1)))
      as Hon by (unfold on_heap; simpl; by rewrite Hsort).
    by do 2 (erewrite (bind_inl (on_heap _)); [|exact Hon]).
  - assert (on_heap (sort_repositories items) w1 = (inr p, World h (remote w) (calls w1)))
      as Hon by (unfold on_heap; simpl; by rewrite Hsort).
    do 2 (erewrite (bind_inr (on_heap _)); [|exact Hon]).
    apply after_sort_agree. simpl.
    eapply sort_repositories_sorting; [done..| |exact Hsort].
    by eapply (list_keyed S Hstore).
Qed.

(** C3, amended: against a server that behaves as a keyed store, and
    for desired records that carry a string key, a run in check mode
    returns what
    the same run outside check mode returns, the [changed] flag and the
    message with the three counts, or raises the same error; the counts
    of added, updated and deleted records are the same; and the run in
    check mode sends only reads (no create, update or delete) and leaves
    the server as it was. *)
Theorem check_mode_same_counts_no_mutation
    (args : task_args) (parent_warning : arg (list string)) (server : S) :
  (∀ configs, repository_configs args = Given configs → Forall keyed configs) →
  let dry := run true args parent_warning (start args server) in
  let wet := run false args parent_warning (start args server) in
  dry.1 = wet.1 ∧
  (∀ cfg, prepare args parent_warning = inr cfg →
          (reconcile true cfg (start args server)).1
          = (reconcile false cfg (start args server)).1) ∧
  remote dry.2 = server ∧
  forallb is_read (calls dry.2) = true.
Proof.
  intros Hkeyed dry wet.
  assert (∀ cfg, prepare args parent_warning = inr cfg →
                 (reconcile true cfg (start args server)).1
                 = (reconcile false cfg (start args server)).1) as Hcounts.
  { intros cfg Hprep. destruct (prepare_unique args parent_warning cfg Hprep)
      as (configs & Hargs & Hunique).
    apply reconcile_check_agrees; unfold start; rewrite Hargs; simpl.
    - by apply Hkeyed.
    - apply unique_keys_distinct; [by apply Hkeyed|done]. }
  split_and!; [|done|..].
  - subst dry wet. unfold run. unfold bind at 1 3. unfold lift.
    destruct (prepare args parent_warning) as [e|cfg] eqn:Hprep; [done|].
    specialize (Hcounts cfg eq_refl). unfold bind.
    destruct (reconcile true cfg (start args server)) as [[e|c] w1];
      destruct (reconcile false cfg (start args server)) as [[e'|c'] w2];
      simpl in Hcounts; by simplify_eq.
  - pose proof (run_check args parent_warning (start args server)) as [Hr _]. done.
  - pose proof (run_check args parent_warning (start args server)) as [_ (l & Hl & Hf)].
    subst dry. rewrite Hl. done.
Qed.

End DryRun.

(** ** The reference server is a keyed store *)

Section StoreLaws.
Import Store.

Lemma find_replace_other (k k' : string) (f : dict → dict) (s : store) :
  k ≠ k' → find k (replace k' f s) = find k s.
Proof.
  intros Hne. unfold find, replace. f_equal.
  induction s as [|[k0 d0] s IH]; simpl; [done|].
  destruct (String.eqb k0 k') eqn:Hk'; simpl.
  - apply String.eqb_eq in Hk' as ->.
    assert (String.eqb k' k = false) as -> by (apply String.eqb_neq; congruence).
    done.
  - destruct (String.eqb k0 k); [done|]. apply IH.
Qed.

Lemma find_app_other (k k' : string) (d : dict) (s : store) :
  k ≠ k' → find k (s ++ [(k', d)]) = find k s.
Proof.
  intros Hne. unfold find. f_equal.
  induction s as [|[k0 d0] s IH]; simpl.
  - assert (String.eqb k' k = false) as -> by (apply String.eqb_neq; congruence).
    done.
  - destruct (String.eqb k0 k); [done|]. apply IH.
Qed.

Lemma store_keyed_store : keyed_store store.
Proof.
  split; try done.
  - intros up k k' d s Hne. simpl.
    destruct (has k' s); by rewrite ?find_replace_other, ?find_app_other.
  - intros up k k' d s Hne. simpl. by rewrite find_replace_other.
  - intros up s l Hl. simpl in Hl. simplify_eq.
    apply Forall_fmap, Forall_forall. intros [k d] _.
    exists k. apply lookup_insert_eq.
Qed.

End StoreLaws.

(** C3, as stated for every desired list and every remote, fails: check
    mode neither builds the URL of a write nor sends it, so it reports
    an addition where the run outside check mode raises.  A single
    desired record whose key is the boolean [True] passes the validation
    against the reference server, and the record "system-index" is one
    that the guarded server refuses to create: in both cases check mode
    returns 1 added, 0 updated, 0 deleted with [changed], and the real
    run raises [TypeError]. *)
Lemma check_mode_differs_from_real_run :
  let odd := [<["key" := VBool true]> (Examples.repo "r1")] in
  let refused := [Examples.repo "system-index"] in
  let args := Examples.task refused "Present" in
  (Examples.play true odd "Present" []).1 = inr Examples.one_added ∧
  (Examples.play false odd "Present" []).1 = inl TypeError ∧
  (run true args (Given []) (start args (Guard.Guarded []))).1 = inr Examples.one_added ∧
  (run false args (Given []) (start args (Guard.Guarded []))).1 = inl TypeError ∧
  (Examples.play true odd "Present" []).1 ≠ (Examples.play false odd "Present" []).1.
Proof.
  cbv zeta. split_and!; try (vm_compute; reflexivity).
  intros Heq. vm_compute in Heq. discriminate.
Qed.

(** The theorem at work: the desired records "a" and "c" with target
    state Prune against the reference server holding "A" and "z"; check
    mode and the real run both report one addition and one deletion. *)
Lemma check_mode_same_counts_no_mutation_witness :
  let server : Store.store := [("A", Examples.repo "A"); ("z", Examples.repo "z")] in
  let args := Examples.task [Examples.repo "a"; Examples.described "c" "new"] "Prune" in
  let dry := run true args (Given []) (start args server) in
  let wet := run false args (Given []) (start args server) in
  dry.1 = wet.1 ∧
  (∀ cfg, prepare args (Given []) = inr cfg →
          (reconcile true cfg (start args server)).1
          = (reconcile false cfg (start args server)).1) ∧
  remote dry.2 = server ∧
  forallb is_read (calls dry.2) = true.
Proof.
  intros server args.
  apply (check_mode_same_counts_no_mutation store_keyed_store args (Given []) server).
  intros configs Hconfigs. injection Hconfigs as <-.
  repeat constructor; eexists; vm_compute; reflexivity.
Defined.

(** ** The duplicate check of the action plugin *)

Section Duplicates.
Context {S : Type} `{Remote S}.

Lemma unique_against_rejects (r1 : dict) (rest : list dict) :
  keyed r1 → Forall keyed rest → lower_key r1 ∈ lower_key <$> rest →
  unique_against r1 rest = inl (AnsibleOptionsError unique_key_msg).
Proof.
  intros [k1 Hk1] Hrest. induction Hrest as [|r2 rest [k2 Hk2] _ IH]; simpl.
  - intros Hin. by apply elem_of_nil in Hin.
  - unfold getitem. rewrite Hk1, Hk2. simpl.
    rewrite (keyed_lower_key r1 k1), (keyed_lower_key r2 k2) by done.
    destruct (String.eqb (lower k1) (lower k2)) eqn:Heq; [done|].
    intros Hin. apply elem_of_cons in Hin as [Hin|Hin].
    + apply String.eqb_neq in Heq. done.
    + rewrite <-(keyed_lower_key r1 k1) in Hin by done. by apply IH.
Qed.

Lemma unique_against_accepts (r1 : dict) (rest : list dict) :
  keyed r1 → Forall keyed rest → lower_key r1 ∉ lower_key <$> rest →
  unique_against r1 rest = inr tt.
Proof.
  intros [k1 Hk1] Hrest. induction Hrest as [|r2 rest [k2 Hk2] _ IH]; simpl; [done|].
  unfold getitem. rewrite Hk1, Hk2. simpl.
  rewrite (keyed_lower_key r1 k1), (keyed_lower_key r2 k2) by done.
  intros Hout. apply not_elem_of_cons in Hout as [Hne Hout].
  apply String.eqb_neq in Hne. rewrite Hne.
  apply IH. by rewrite (keyed_lower_key r1 k1).
Qed.

Lemma unique_keys_rejects (configs : list dict) :
  Forall keyed configs → ¬ NoDup (lower_key <$> configs) →
  unique_keys configs = inl (AnsibleOptionsError unique_key_msg).
Proof.
  induction 1 as [|r1 rest Hr1 Hrest IH]; simpl; intros Hdup.
  - destruct Hdup. constructor.
  - destruct (decide (lower_key r1 ∈ lower_key <$> rest)) as [Hin|Hout].
    + by rewrite unique_against_rejects.
    + rewrite unique_against_accepts by done. simpl.
      apply IH. intros Hnd. apply Hdup. by constructor.
Qed.

Lemma required_fields_complete (configs : list dict) :
  Forall complete configs → each required_fields configs = inr tt.
Proof.
  induction 1 as [|d rest ([k Hk] & (p & Hp & Hpn) & (r & Hr & Hrn)) _ IH]; simpl; [done|].
  unfold required_fields, getitem. rewrite Hk, Hp, Hr. simpl.
  rewrite !bool_decide_eq_false_2 by done. done.
Qed.

(** X3: for records that carry the three required fields, two keys that are
    equal up to case make the run raise the validation error, whatever
    the target state, the mode and the other arguments, before any
    request is sent and with the records untouched. *)
Lemma run_rejects_duplicates (check_mode : bool) (args : task_args)
    (parent_warning : arg (list string)) (server : S) (configs : list dict) :
  repository_configs args = Given configs →
  Forall complete configs →
  ¬ NoDup (lower_key <$> configs) →
  run check_mode args parent_warning (start args server)
  = (inl (AnsibleOptionsError unique_key_msg), World configs server []).
Proof.
  intros Hargs Hcomplete Hdup. unfold run, bind, lift, prepare, start. rewrite Hargs. simpl.
  rewrite required_fields_complete by done. simpl.
  rewrite unique_keys_rejects; [done| |done].
  eapply Forall_impl; [exact Hcomplete|]. by intros d [? _].
Qed.

End Duplicates.

(** ** The partition, when it returns *)

Section Partition.

Lemma Permutation_moved {A} (l1 l2 ib : list A) (i : A) :
  (l1 ++ l2) ++ ib ++ [i] ≡ₚ (l1 ++ i :: l2) ++ ib.
Proof.
  rewrite (assoc_L (++)). rewrite <-Permutation_cons_append.
  rewrite <-(assoc_L (++) l1). simpl. rewrite <-(assoc_L (++) l1).
  by rewrite Permutation_middle.
Qed.

Lemma records_insert_other (h : list dict) (refs : list nat) (i : nat) (d : dict) :
  i ∉ refs → records (<[i := d]> h) refs = records h refs.
Proof.
  intros Hout. unfold records. apply list_fmap_ext. intros n ref Href.
  rewrite list_lookup_insert_ne; [done|].
  intros Heq. apply Hout. rewrite Heq. by eapply list_elem_of_lookup_2.
Qed.

Lemma sort_item_partitioned (items : list dict) (i : nat) (item : dict)
    (p p' : parts) (h h' : list dict) :
  keyed item → sorting h p → partitioned items h p →
  sort_item i item p h = (inr p', h') → partitioned items h' p'.
Proof.
  intros [ki Hki] (Hkeyed & Hnd & Hrefs & Hsome & Hart) (Hperm & Hitems).
  unfold sort_item, bind, get, lift, put, raise, ret. simpl.
  destruct (h !! i) as [repo|] eqn:Hi; simpl.
  2:{ intros ?; simplify_eq. by split. }
  destruct (Forall_lookup_1 _ _ _ _ Hkeyed Hi) as [kr Hkr].
  unfold getitem. rewrite Hki, Hkr. simpl.
  destruct (String.eqb (lower ki) (lower kr)) eqn:Heq; simpl.
  2:{ intros ?; simplify_eq. by split. }
  destruct (remove_first _ (onlyInArgs p)) as [oa'|] eqn:Hoa; simpl; [|done].
  destruct (remove_first _ (onlyInArtifactory p)) as [art'|] eqn:Hrm; simpl; [|done].
  intros ?; simplify_eq.
  apply remove_first_split in Hoa as (l1 & j & l2 & Hoa & -> & Hj).
  apply remove_first_split in Hrm as (a1 & x & a2 & Hrm & -> & Hx).
  apply bool_decide_eq_true_1 in Hj. apply bool_decide_eq_true_1 in Hx. subst x.
  assert (j = i) as -> by (by eapply same_lower_key_same_ref).
  set (repo' := <["key" := VStr ki]> repo) in *.
  rewrite Hoa in Hperm, Hrefs. rewrite Hrm in Hitems.
  assert (i ∉ inBoth p) as Hout.
  { apply NoDup_app in Hrefs as (_ & Hdisj & _). apply Hdisj.
    apply elem_of_app. right. by left. }
  split; simpl.
  - rewrite length_insert. by rewrite Permutation_moved.
  - unfold records at 1. rewrite fmap_app. fold (records (<[i:=repo']> h) (inBoth p)).
    rewrite records_insert_other by done. simpl.
    rewrite list_lookup_insert_eq by (by eapply lookup_lt_Some). simpl.
    by rewrite Permutation_moved.
Qed.

(** X12: when the arguments are validated (string keys, different even up
    to case), the listed records carry string keys and the partition
    returns, it is a partition: every desired record is in exactly one
    of [onlyInArgs] and [inBoth], and the listing is [onlyInArtifactory]
    together with the records of [inBoth]. *)
Lemma partition_when_it_returns (items h h' : list dict) (p : parts) :
  Forall keyed h → NoDup (lower_key <$> h) → Forall keyed items →
  sort_repositories items h = (inr p, h') →
  NoDup (onlyInArgs p ++ inBoth p) ∧ partitioned items h' p.
Proof.
  intros Hkeyed Hnd Hitems Hsort.
  pose proof (sort_repositories_sorting items h h' p Hkeyed Hnd Hitems Hsort)
    as (_ & _ & Hrefs & _).
  split; [done|].
  assert (sorting h' p ∧ partitioned items h' p) as [_ Hp]; [|done].
  revert Hsort. unfold sort_repositories. unfold bind at 1, get. simpl.
  apply (for_fold_invariant (λ h p, sorting h p ∧ partitioned items h p) (λ _, True)).
  - intros i p0 h0 p1 h1 _ Hs.
    apply (for_fold_invariant (λ h p, sorting h p ∧ partitioned items h p) keyed);
      [|done..].
    intros item q σ q' σ' Hitem [Hs' Hp'] Hstep. split.
    + by eapply sort_item_sorting.
    + by eapply sort_item_partitioned.
  - by apply Forall_true.
  - split.
    + unfold sorting. simpl. rewrite app_nil_r. split_and!; try done.
      * apply NoDup_seq.
      * apply Forall_forall. intros ref Href. apply lookup_lt_is_Some.
        apply elem_of_seq in Href. lia.
    + split; simpl; by rewrite app_nil_r.
Qed.

End Partition.

(** ** Two edges of the action plugin *)

(** A single desired record whose key is not a string passes the
    validation (there is no pair to compare); the real run then raises
    [TypeError] when it builds the URL of the PUT, while check mode,
    which builds no URL for a creation, reports one addition. *)
Lemma non_string_key_only_real_run_raises :
  let desired := [<["key" := VBool true]> (Examples.repo "r1")] in
  (Examples.play true desired "Present" []).1 = inr Examples.one_added ∧
  (Examples.play false desired "Present" []).1 = inl TypeError.
Proof. cbv zeta. split; vm_compute; reflexivity. Qed.

(** With basic authentication, the default, [prepare] raises
    [TypeError]: [base64.standard_b64encode] is handed a [str]. *)
Lemma basic_auth_raises :
  prepare {| repository_configs := Given [Examples.repo "r1"];
             state := None;
             artifactory_base_url := Given "https://artifactory.example.com";
             auth_type := None;
             auth_string := Given "admin:password";
             ignore_ca_error := None |} (Given [])
  = inl TypeError.
Proof. vm_compute. reflexivity. Qed.

(** * Further properties of the code *)

Import Coverage.

(** ** Validation of the arguments, lines 107-163 *)

Section Arguments.

Lemma required_fields_one (d : dict) : required_fields d = inr tt ↔ has_required d.
Proof.
  unfold required_fields, getitem, has_required. split.
  - destruct (d !! "key") as [k|] eqn:Hk; simpl; [|done].
    case_bool_decide; [done|].
    destruct (d !! "packageType") as [p|] eqn:Hp; simpl; [|done].
    case_bool_decide; [done|].
    destruct (d !! "rclass") as [r|] eqn:Hr; simpl; [|done].
    case_bool_decide; [done|]. intros _ field Hfield.
    repeat (apply elem_of_cons in Hfield as [->|Hfield]; [eauto|]).
    by apply elem_of_nil in Hfield.
  - intros Hall.
    destruct (Hall "key") as (k & -> & Hkn); [set_solver|].
    destruct (Hall "packageType") as (p & -> & Hpn); [set_solver|].
    destruct (Hall "rclass") as (r & -> & Hrn); [set_solver|].
    simpl. by rewrite !bool_decide_eq_false_2.
Qed.

(** X1: the test of the required fields lets a list of records through
    exactly when every record has the fields "key", "packageType" and
    "rclass", none of them [None]. *)
Theorem required_fields_pass_iff (configs : list dict) :
  each required_fields configs = inr tt ↔ Forall has_required configs.
Proof.
  induction configs as [|d configs IH]; simpl.
  - split; [constructor|done].
  - rewrite Forall_cons, <-IH, <-required_fields_one.
    destruct (required_fields d) as [e|[]]; simpl; [|tauto].
    split; [done|]. by intros [? _].
Qed.

Lemma unique_keys_accepts (configs : list dict) :
  Forall keyed configs → NoDup (lower_key <$> configs) → unique_keys configs = inr tt.
Proof.
  induction 1 as [|r1 rest Hr1 Hrest IH]; simpl; [done|].
  intros Hnd. apply NoDup_cons in Hnd as [Hout Hnd].
  rewrite unique_against_accepts by done. simpl. by apply IH.
Qed.

(** X2: for records with string keys, the duplicate test passes exactly
    when no two keys are equal once lower-cased. *)
Theorem unique_keys_pass_iff (configs : list dict) :
  Forall keyed configs →
  unique_keys configs = inr tt ↔ NoDup (lower_key <$> configs).
Proof.
  intros Hkeyed. split.
  - by apply unique_keys_distinct.
  - by apply unique_keys_accepts.
Qed.

(** What a successful [prepare] went through. *)
Lemma prepare_returns (args : task_args) (pw : arg (list string)) (cfg : config) :
  prepare args pw = inr cfg →
  ∃ configs base hd,
    repository_configs args = Given configs ∧
    each required_fields configs = inr tt ∧
    unique_keys configs = inr tt ∧
    artifactory_base_url args = Given base ∧
    cfg_state cfg = lower (default "Present" (state args)) ∧
    (cfg_state cfg = "absent" ∨ cfg_state cfg = "present" ∨ cfg_state cfg = "prune") ∧
    build_headers (lower (default "Basic" (auth_type args))) (auth_string args) = inr hd ∧
    cert_validation
      (normalise_ignore_ca_error (default (VBool false) (ignore_ca_error args))) hd pw
    = inr (cfg_uriParams cfg, cfg_warning cfg) ∧
    cfg_repository_configs cfg = configs ∧
    cfg_baseUrl cfg = (base ++ "/artifactory/")%string.
Proof.
  unfold prepare. destruct (repository_configs args) as [| |configs]; simpl; [done..|].
  destruct (each required_fields configs) as [e|[]] eqn:Hreq; simpl; [done|].
  destruct (unique_keys configs) as [e|[]] eqn:Hu; simpl; [done|].
  destruct (artifactory_base_url args) as [| |base]; simpl; [done..|].
  set (st := lower (default "Present" (state args))).
  destruct (String.eqb st "absent") eqn:Ha; simpl.
  2: destruct (String.eqb st "present") eqn:Hp; simpl.
  3: destruct (String.eqb st "prune") eqn:Hr; simpl; [|done].
  all: destruct (negb _); [done|].
  all: match goal with |- ebind ?m _ = _ → _ => destruct m as [e|[]]; simpl; [done|] end.
  all: destruct (build_headers _ _) as [e|hd] eqn:Hhd; simpl; [done|].
  all: destruct (cert_validation _ _ _) as [e|[up w]] eqn:Hcv; simpl; [done|].
  all: intros ?; simplify_eq; simpl.
  all: exists configs, base, hd; split_and!; try done.
  - left. by apply String.eqb_eq.
  - right. left. by apply String.eqb_eq.
  - right. right. by apply String.eqb_eq.
Qed.

End Arguments.

Lemma unique_keys_pass_iff_witness :
  unique_keys [Examples.repo "libs"; Examples.repo "Plugins"] = inr tt
  ↔ NoDup (lower_key <$> [Examples.repo "libs"; Examples.repo "Plugins"]).
Proof.
  apply (unique_keys_pass_iff [Examples.repo "libs"; Examples.repo "Plugins"]).
  repeat constructor; eexists; vm_compute; reflexivity.
Defined.

Lemma run_rejects_duplicates_witness :
  run true (Examples.task [Examples.repo "Libs"; Examples.repo "libs"] "Present") (Given [])
    (start (Examples.task [Examples.repo "Libs"; Examples.repo "libs"] "Present")
       [("libs", Examples.repo "libs")])
  = (inl (AnsibleOptionsError unique_key_msg),
     World [Examples.repo "Libs"; Examples.repo "libs"] [("libs", Examples.repo "libs")] []).
Proof.
  refine (run_rejects_duplicates true _ (Given []) _ _ _ _ _).
  - reflexivity.
  - repeat constructor; eexists; vm_compute; (reflexivity || (split; [reflexivity|discriminate])).
  - intros Hnd. inversion Hnd as [|x l Hnot _]. apply Hnot. vm_compute. left.
Defined.

Section ArgumentsOfARun.
Context {S : Type} `{Remote S}.

(** X4: a target state that is none of "absent", "present" and "prune"
    once lower-cased is refused after the records and the URL have
    passed, whatever the authentication arguments: the run raises the
    options error on the state, sends nothing and leaves the records
    alone. *)
Theorem run_rejects_unknown_state (check_mode : bool) (args : task_args)
    (parent_warning : arg (list string)) (server : S) (configs : list dict) (base : string) :
  repository_configs args = Given configs →
  Forall complete configs →
  NoDup (lower_key <$> configs) →
  artifactory_base_url args = Given base →
  lower (default "Present" (state args)) ∉ ["absent"; "present"; "prune"] →
  run check_mode args parent_warning (start args server)
  = (inl (AnsibleOptionsError
            (quoted "State" ++ " must be " ++ quoted "Absent" ++ ", "
               ++ quoted "Present" ++ ", or " ++ quoted "Prune")),
     World configs server []).
Proof.
  intros Hargs Hcomplete Hnd Hbase Hstate.
  unfold run, bind, lift, prepare, start. rewrite Hargs, Hbase. simpl.
  rewrite required_fields_complete by done. simpl.
  rewrite unique_keys_accepts; [|by eapply Forall_impl; [exact Hcomplete|intros d [? _]]|done].
  simpl.
  set (st := lower (default "Present" (state args))) in *.
  destruct (String.eqb st "absent") eqn:Ha.
  { apply String.eqb_eq in Ha. destruct Hstate. rewrite Ha. set_solver. }
  destruct (String.eqb st "present") eqn:Hp.
  { apply String.eqb_eq in Hp. destruct Hstate. rewrite Hp. set_solver. }
  destruct (String.eqb st "prune") eqn:Hr.
  { apply String.eqb_eq in Hr. destruct Hstate. rewrite Hr. set_solver. }
  done.
Qed.

Lemma prepare_basic (args : task_args) (pw : arg (list string)) :
  lower (default "Basic" (auth_type args)) = "basic" → ∃ e, prepare args pw = inl e.
Proof.
  intros Hbasic. destruct (prepare args pw) as [e|cfg] eqn:Hp; [eauto|].
  apply prepare_returns in Hp as (configs & base & hd & _ & _ & _ & _ & _ & _ & Hhd & _).
  rewrite Hbasic in Hhd. unfold build_headers in Hhd. simpl in Hhd.
  by destruct (auth_string args).
Qed.

(** X5: with basic authentication, which is the default, no run reaches
    the server: whatever the other arguments, the mode and the server,
    the run raises with no request sent and the records as they were. *)
Theorem basic_auth_never_reaches_server (check_mode : bool) (args : task_args)
    (parent_warning : arg (list string)) (server : S) :
  lower (default "Basic" (auth_type args)) = "basic" →
  ∃ e, run check_mode args parent_warning (start args server)
       = (inl e, start args server).
Proof.
  intros Hbasic. destruct (prepare_basic args parent_warning Hbasic) as [e He].
  exists e. unfold run, bind, lift. by rewrite He.
Qed.

(** X8: when the listing of the repositories fails, the run raises
    [TypeError] and not the [AnsibleActionFail] of line 176, whose
    message cannot be built: the status of the answer is an [int].  The
    listing is the only request sent, and the records and the server are
    as they were. *)
Theorem listing_failure_aborts (check_mode : bool) (args : task_args)
    (parent_warning : arg (list string)) (server : S) (cfg : config)
    (status : Z) (message : string) :
  prepare args parent_warning = inr cfg →
  list_repositories (cfg_uriParams cfg) server = UriFailed status message →
  run check_mode args parent_warning (start args server)
  = (inl TypeError, World (cfg_repository_configs cfg) server [ListRepositories]).
Proof.
  intros Hp Hlist.
  pose proof (prepare_returns _ _ _ Hp) as (configs & base & hd & Hargs & _ & _ & _ & _ & _ & _ & _ & Hcfg & _).
  unfold run, reconcile, uri_read, raise, start, lift, bind. rewrite Hp. simpl.
  rewrite Hlist, Hargs, Hcfg. done.
Qed.

End ArgumentsOfARun.

Lemma run_rejects_unknown_state_witness :
  run false (Examples.task [Examples.repo "libs"] "Purge") (Given [])
    (start (Examples.task [Examples.repo "libs"] "Purge") [("old", Examples.repo "old")])
  = (inl (AnsibleOptionsError
            (quoted "State" ++ " must be " ++ quoted "Absent" ++ ", "
               ++ quoted "Present" ++ ", or " ++ quoted "Prune")),
     World [Examples.repo "libs"] [("old", Examples.repo "old")] []).
Proof.
  refine (run_rejects_unknown_state false _ (Given []) _ _ _ _ _ _ _ _).
  - reflexivity.
  - repeat constructor; eexists; vm_compute; (reflexivity || (split; [reflexivity|discriminate])).
  - vm_compute. repeat constructor. intros Hin. by apply elem_of_nil in Hin.
  - reflexivity.
  - vm_compute. intros Hin.
    repeat (apply elem_of_cons in Hin as [Hin|Hin]; [discriminate|]).
    by apply elem_of_nil in Hin.
Defined.

Lemma basic_auth_never_reaches_server_witness :
  ∃ e, run false
         {| repository_configs := Given [Examples.repo "libs"];
            state := None;
            artifactory_base_url := Given "https://artifactory.example.com";
            auth_type := None;
            auth_string := Given "admin:password";
            ignore_ca_error := None |} (Given []) (World [Examples.repo "libs"] [] [])
       = (inl e, World [Examples.repo "libs"] ([] : Store.store) []).
Proof.
  refine (basic_auth_never_reaches_server false
            {| repository_configs := Given [Examples.repo "libs"];
               state := None;
               artifactory_base_url := Given "https://artifactory.example.com";
               auth_type := None;
               auth_string := Given "admin:password";
               ignore_ca_error := None |} (Given []) ([] : Store.store) _).
  reflexivity.
Defined.

Lemma listing_failure_aborts_witness :
  run false (Examples.task [Examples.repo "libs"] "Prune") (Given [])
    (start (Examples.task [Examples.repo "libs"] "Prune") tt)
  = (inl TypeError, World [Examples.repo "libs"] tt [ListRepositories]).
Proof.
  refine (listing_failure_aborts false _ (Given []) tt
            (Examples.prepared [Examples.repo "libs"] "prune") 503 "Service Unavailable" _ _).
  - vm_compute. reflexivity.
  - reflexivity.
Defined.

(** ** The certificate flag, lines 142-163 *)

Lemma prepare_flag (args : task_args) (parent_warning : arg (list string)) (cfg : config) :
  prepare args parent_warning = inr cfg →
  if normalise_ignore_ca_error (default (VBool false) (ignore_ca_error args))
  then validate_certs (cfg_uriParams cfg) = Some "no" ∧
       parent_warning ≠ Absent ∧
       cfg_warning cfg
       = Given (match parent_warning with Given l => l | _ => [] end ++ [ca_warning])
  else validate_certs (cfg_uriParams cfg) = None ∧ cfg_warning cfg = parent_warning.
Proof.
  intros Hp.
  apply prepare_returns in Hp as (configs & base & hd & _ & _ & _ & _ & _ & _ & _ & Hcv & _).
  unfold cert_validation in Hcv.
  destruct (normalise_ignore_ca_error _).
  - destruct parent_warning as [| |l]; simpl in Hcv; [done| |];
      injection Hcv as <- <-; by split_and!.
  - by injection Hcv as <- <-.
Qed.

(** X6: when the arguments pass, the certificate validation of every
    request and the warning of the result go together: the flag, once
    normalised, switches validation off and appends the warning of the
    plugin after the warnings of the parent class, and otherwise leaves
    both as they were.  With the flag set the parent's result must carry
    a ["warning"] entry. *)
Theorem prepare_cert_validation (args : task_args) (parent_warning : arg (list string))
    (cfg : config) :
  prepare args parent_warning = inr cfg →
  if normalise_ignore_ca_error (default (VBool false) (ignore_ca_error args))
  then validate_certs (cfg_uriParams cfg) = Some "no" ∧
       parent_warning ≠ Absent ∧
       cfg_warning cfg
       = Given (match parent_warning with Given l => l | _ => [] end ++ [ca_warning])
  else validate_certs (cfg_uriParams cfg) = None ∧ cfg_warning cfg = parent_warning.
Proof. apply prepare_flag. Qed.

Lemma prepare_cert_validation_witness :
  let args := {| repository_configs := Given [Examples.repo "libs"];
                 state := None;
                 artifactory_base_url := Given "https://artifactory.example.com";
                 auth_type := Some "ApiKey";
                 auth_string := Given "secret";
                 ignore_ca_error := Some (VStr "Yes") |} in
  let cfg := {| cfg_repository_configs := [Examples.repo "libs"];
                cfg_state := "present";
                cfg_baseUrl := "https://artifactory.example.com/artifactory/";
                cfg_uriParams := {| headers := {[ "X-JFrog-Art-Api" := VStr "secret" ]};
                                    validate_certs := Some "no" |};
                cfg_warning := Given ["deprecated"; ca_warning] |} in
  validate_certs (cfg_uriParams cfg) = Some "no" ∧
  Given ["deprecated"] ≠ (Absent : arg (list string)) ∧
  cfg_warning cfg = Given (["deprecated"] ++ [ca_warning]).
Proof.
  intros args cfg.
  refine (prepare_cert_validation args (Given ["deprecated"]) cfg _).
  vm_compute. reflexivity.
Defined.

(** ** The requests of a run, by target state *)

Section Requests.
Context {S : Type} `{Remote S}.

#[global] Instance sends_preorder (P : request → Prop) : PreOrder (@sends S P).
Proof.
  split.
  - intros w. exists []. split; [by rewrite app_nil_r|constructor].
  - intros w1 w2 w3 (l & Hl & Hf) (l' & Hl' & Hf'). exists (l ++ l'). split.
    + by rewrite Hl', Hl, (assoc_L (++)).
    + by apply Forall_app.
Qed.

Lemma sends_one (P : request → Prop) (w : world S) h s rq :
  P rq → sends P w (World h s (calls w ++ [rq])).
Proof. intros HP. exists [rq]. split; [done|by constructor]. Qed.

Lemma sends_none (P : request → Prop) (w : world S) h s : sends P w (World h s (calls w)).
Proof. exists []. split; [by rewrite app_nil_r|constructor]. Qed.

Lemma add_repository_sends (P : request → Prop) cfg ref (w : world S) :
  (∀ k d, P (PutRepository k d)) → sends P w (add_repository cfg ref w).2.
Proof.
  intros HP. unfold add_repository, deref, uri_write, lift, raise, ret, bind.
  destruct (url_key _) as [e|k]; simpl; [reflexivity|].
  destruct (put_repository _ _ _ _) as [[st m|[]] s']; simpl; by apply sends_one.
Qed.

Lemma update_repository_sends (P : request → Prop) check cfg ref n (w : world S) :
  (∀ k, P (GetRepository k)) → (∀ k d, P (PostRepository k d)) →
  sends P w (update_repository check cfg ref n w).2.
Proof.
  intros Hget Hpost. unfold update_repository, deref, uri_read, uri_write, lift, raise, ret, bind.
  destruct (url_key _) as [e|k]; simpl; [reflexivity|].
  destruct (get_repository _ _ _) as [st m|cur]; simpl; [by apply sends_one|].
  case_bool_decide; simpl; [|by apply sends_one].
  destruct check; simpl; [by apply sends_one|].
  destruct (post_repository _ _ _ _) as [[st m|[]] s']; simpl.
  all: etrans; [apply (sends_one P w (heap w) (remote w) (GetRepository k)); done|].
  all: by apply sends_one.
Qed.

Lemma delete_repository_of_sends (P : request → Prop) check cfg total repo n (w : world S) :
  (∀ k, P (DeleteRepository k)) →
  sends P w (delete_repository_of check cfg total repo n w).2.
Proof.
  intros HP. unfold delete_repository_of, uri_write, lift, raise, ret, bind.
  destruct check; simpl; [reflexivity|].
  destruct (url_key _) as [e|k]; simpl; [reflexivity|].
  destruct (delete_repository _ _ _) as [[st m|[]] s']; simpl; by apply sends_one.
Qed.

Lemma add_repositories_sends (P : request → Prop) check cfg p (w : world S) :
  (∀ k d, P (PutRepository k d)) → sends P w (add_repositories check cfg p w).2.
Proof.
  intros HP. unfold add_repositories. case_match; [|reflexivity].
  apply (bind_preserves (sends P)); [|reflexivity].
  destruct check; [reflexivity|]. apply (for_each_preserves (sends P)).
  intros. by apply add_repository_sends.
Qed.

Lemma update_repositories_sends (P : request → Prop) check cfg p (w : world S) :
  (∀ k, P (GetRepository k)) → (∀ k d, P (PostRepository k d)) →
  sends P w (update_repositories check cfg p w).2.
Proof.
  intros Hget Hpost. unfold update_repositories. case_match; [|reflexivity].
  apply (for_fold_preserves (sends P)). intros. by apply update_repository_sends.
Qed.

Lemma delete_repositories_sends (P : request → Prop) check cfg p (w : world S) :
  (∀ k, P (DeleteRepository k)) → sends P w (delete_repositories check cfg p w).2.
Proof.
  intros HP. unfold delete_repositories. apply (bind_preserves (sends P)); [reflexivity|].
  intros l w'. apply (for_fold_preserves (sends P)).
  intros. by apply delete_repository_of_sends.
Qed.

Lemma on_heap_sends (P : request → Prop) {A} (m : M (list dict) A) (w : world S) :
  sends P w (on_heap m w).2.
Proof. unfold on_heap. destruct (m (heap w)) as [r h]. simpl. apply sends_none. Qed.

Lemma delete_repositories_present check cfg p (w : world S) :
  cfg_state cfg = "present" → delete_repositories check cfg p w = (inr 0, w).
Proof.
  intros Hstate. unfold delete_repositories.
  erewrite bind_inr; [|apply toRemove_returns]. by rewrite Hstate.
Qed.

(** X10: with target state Absent a run creates nothing and updates
    nothing: after the listing it sends DELETE requests only, whatever
    the mode, the records and the server, and whether it returns or
    raises; when the reconciliation returns, it counts no addition and
    no update. *)
Theorem absent_only_deletes (check_mode : bool) (cfg : config) (w : world S) :
  cfg_state cfg = "absent" →
  sends is_list_or_delete w (reconcile check_mode cfg w).2 ∧
  ∀ c, (reconcile check_mode cfg w).1 = inr c → addedRepos c = 0 ∧ updatedRepos c = 0.
Proof.
  intros Hstate.
  assert (∀ p, add_repositories check_mode cfg p = ret 0) as Hadd.
  { intros p. unfold add_repositories, is_present_or_prune. by rewrite Hstate. }
  assert (∀ p, update_repositories check_mode cfg p = ret 0) as Hupd.
  { intros p. unfold update_repositories, is_present_or_prune. by rewrite Hstate. }
  split.
  - unfold reconcile. apply (bind_preserves (sends is_list_or_delete)).
    { apply sends_one. by left. }
    intros [st m|items] w1; [reflexivity|].
    apply (bind_preserves (sends is_list_or_delete)); [apply on_heap_sends|].
    intros p w2. rewrite Hadd, Hupd.
    apply (bind_preserves (sends is_list_or_delete)); [reflexivity|]. intros a w3.
    apply (bind_preserves (sends is_list_or_delete)); [reflexivity|]. intros u w4.
    apply (bind_preserves (sends is_list_or_delete)); [|reflexivity].
    apply delete_repositories_sends. intros k. right. by exists k.
  - intros c Hc. destruct (reconcile check_mode cfg w) as [r w'] eqn:Hrec.
    simpl in Hc. subst r. unfold reconcile in Hrec.
    apply bind_returns in Hrec as ([st m|items] & w1 & _ & Hrec); [done|].
    apply bind_returns in Hrec as (p & w2 & _ & Hrec). rewrite Hadd, Hupd in Hrec.
    apply bind_returns in Hrec as (a & w3 & Ha & Hrec).
    apply bind_returns in Hrec as (u & w4 & Hu & Hrec).
    apply bind_returns in Hrec as (d & w5 & _ & Hrec).
    unfold ret in *. by simplify_eq.
Qed.

(** X11: with target state Present a run deletes nothing: it never
    sends a DELETE request, whatever the mode, the records and the
    server, and whether it returns or raises; when the reconciliation
    returns, it counts no deletion. *)
Theorem present_never_deletes (check_mode : bool) (cfg : config) (w : world S) :
  cfg_state cfg = "present" →
  sends (λ rq, ¬ is_delete rq) w (reconcile check_mode cfg w).2 ∧
  ∀ c, (reconcile check_mode cfg w).1 = inr c → deletedRepos c = 0.
Proof.
  intros Hstate. set (P := λ rq, ¬ is_delete rq).
  assert (∀ rq, (∀ k, rq ≠ DeleteRepository k) → P rq) as HP.
  { intros rq Hrq [k ->]. by apply (Hrq k). }
  split.
  - unfold reconcile. apply (bind_preserves (sends P)).
    { apply sends_one. by apply HP. }
    intros [st m|items] w1; [reflexivity|].
    apply (bind_preserves (sends P)); [apply on_heap_sends|]. intros p w2.
    apply (bind_preserves (sends P)).
    { apply add_repositories_sends. intros. by apply HP. }
    intros a w3. apply (bind_preserves (sends P)).
    { apply update_repositories_sends; intros; by apply HP. }
    intros u w4. apply (bind_preserves (sends P)); [|reflexivity].
    by rewrite delete_repositories_present.
  - intros c Hc. destruct (reconcile check_mode cfg w) as [r w'] eqn:Hrec.
    simpl in Hc. subst r. unfold reconcile in Hrec.
    apply bind_returns in Hrec as ([st m|items] & w1 & _ & Hrec); [done|].
    apply bind_returns in Hrec as (p & w2 & _ & Hrec).
    apply bind_returns in Hrec as (a & w3 & _ & Hrec).
    apply bind_returns in Hrec as (u & w4 & _ & Hrec).
    apply bind_returns in Hrec as (d & w5 & Hd & Hrec).
    rewrite delete_repositories_present in Hd by done.
    unfold ret in *. by simplify_eq.
Qed.

End Requests.

Lemma absent_only_deletes_witness :
  let cfg := Examples.prepared [Examples.repo "libs"; Examples.repo "tools"] "absent" in
  let w : world Store.store :=
    World [Examples.repo "libs"; Examples.repo "tools"] [("libs", Examples.repo "libs")] [] in
  sends is_list_or_delete w (reconcile false cfg w).2 ∧
  ∀ c, (reconcile false cfg w).1 = inr c → addedRepos c = 0 ∧ updatedRepos c = 0.
Proof.
  intros cfg w. apply (absent_only_deletes false cfg w). reflexivity.
Defined.

Lemma present_never_deletes_witness :
  let cfg := Examples.prepared [Examples.repo "libs"] "present" in
  let w : world Store.store :=
    World [Examples.repo "libs"] [("old", Examples.repo "old")] [] in
  sends (λ rq, ¬ is_delete rq) w (reconcile false cfg w).2 ∧
  ∀ c, (reconcile false cfg w).1 = inr c → deletedRepos c = 0.
Proof.
  intros cfg w. apply (present_never_deletes false cfg w). reflexivity.
Defined.

(** ** A text flag and the missing warning, lines 142-163 *)

Section TextFlag.
Context {S : Type} `{Remote S}.

(** The parent's warning enters [prepare] at the certificate flag only. *)
Lemma prepare_other_warning (args : task_args) (pw pw' : arg (list string)) (cfg : config) :
  prepare args pw = inr cfg →
  prepare args pw'
  = (cv <~ cert_validation
             (normalise_ignore_ca_error (default (VBool false) (ignore_ca_error args)))
             (headers (cfg_uriParams cfg)) pw';;
     inr {| cfg_repository_configs := cfg_repository_configs cfg;
            cfg_state := cfg_state cfg;
            cfg_baseUrl := cfg_baseUrl cfg;
            cfg_uriParams := cv.1;
            cfg_warning := cv.2 |}).
Proof.
  unfold prepare. destruct (repository_configs args) as [| |configs]; simpl; [done..|].
  destruct (each required_fields configs) as [e|[]]; simpl; [done|].
  destruct (unique_keys configs) as [e|[]]; simpl; [done|].
  destruct (artifactory_base_url args) as [| |base]; simpl; [done..|].
  destruct (negb _); [done|]. destruct (negb _); [done|].
  match goal with |- ebind ?m _ = _ → _ => destruct m as [e|[]]; simpl; [done|] end.
  destruct (build_headers _ _) as [e|hd]; simpl; [done|].
  unfold cert_validation at 1.
  destruct (normalise_ignore_ca_error _).
  - destruct pw as [| |l]; simpl; [done| |]; by intros [= <-].
  - by intros [= <-].
Qed.

(** The reconciliation begins with the listing. *)
Lemma reconcile_lists_first check cfg (w : world S) :
  ∃ l, calls (reconcile check cfg w).2 = calls w ++ ListRepositories :: l.
Proof.
  assert (sends (λ _, True) (World (heap w) (remote w) (calls w ++ [ListRepositories]))
            (reconcile check cfg w).2) as (l & Hl & _).
  { unfold reconcile, bind at 1, uri_read. simpl.
    destruct (list_repositories _ _) as [st m|items]; [reflexivity|].
    apply (bind_preserves (sends (λ _, True))); [apply on_heap_sends|]. intros p w2.
    apply (bind_preserves (sends (λ _, True))); [by apply add_repositories_sends|].
    intros a w3.
    apply (bind_preserves (sends (λ _, True))); [by apply update_repositories_sends|].
    intros u w4.
    apply (bind_preserves (sends (λ _, True))); [by apply delete_repositories_sends|].
    reflexivity. }
  exists l. rewrite Hl. simpl. by rewrite <-(assoc_L (++)).
Qed.

(** X7: a flag given as text and the result of the parent class as
    line 105 leaves it, without a ["warning"] entry.  For arguments that
    pass once such an entry is there, the run raises [KeyError] on
    ["warning"], with no request sent and the records untouched, exactly
    when the text is not empty and is neither "false" nor "no" in any
    capitalisation: "0" and "off" stop the run as "true" does, and no
    text switches certificate validation off. *)
Theorem truthy_text_flag_stops_the_run (check_mode : bool) (args : task_args)
    (server : S) (cfg : config) (flag : string) :
  prepare args (Given []) = inr cfg →
  ignore_ca_error args = Some (VStr flag) →
  flag ≠ EmptyString ∧ lower flag ∉ ["false"; "no"]
  ↔ run check_mode args Absent (start args server)
    = (inl (KeyError "warning"), start args server).
Proof.
  intros Hp Hflag. pose proof (prepare_other_warning args (Given []) Absent cfg Hp) as Hq.
  rewrite Hflag in Hq. simpl in Hq.
  assert (normalise_ignore_ca_error (VStr flag) = true
          ↔ flag ≠ EmptyString ∧ lower flag ∉ ["false"; "no"]) as Hnorm.
  { unfold normalise_ignore_ca_error. simpl.
    destruct (String.eqb (lower flag) "false") eqn:Hf; simpl.
    { apply String.eqb_eq in Hf. rewrite Hf. split; [done|].
      intros [_ Hout]. destruct Hout. set_solver. }
    destruct (String.eqb (lower flag) "no") eqn:Hn; simpl.
    { apply String.eqb_eq in Hn. rewrite Hn. split; [done|].
      intros [_ Hout]. destruct Hout. set_solver. }
    apply String.eqb_neq in Hf, Hn.
    destruct (String.eqb flag EmptyString) eqn:He; simpl.
    - apply String.eqb_eq in He. split; [done|]. by intros [? _].
    - apply String.eqb_neq in He. split; [|done].
      intros _. split; [done|]. intros Hin.
      repeat (apply elem_of_cons in Hin as [Hin|Hin]; [done|]).
      by apply elem_of_nil in Hin. }
  rewrite <-Hnorm. unfold cert_validation in Hq.
  destruct (normalise_ignore_ca_error (VStr flag)); simpl in Hq.
  - split; [intros _|done]. unfold run, bind, lift. by rewrite Hq.
  - split; [done|]. intros Hrun. exfalso.
    destruct (reconcile_lists_first check_mode
                {| cfg_repository_configs := cfg_repository_configs cfg;
                   cfg_state := cfg_state cfg;
                   cfg_baseUrl := cfg_baseUrl cfg;
                   cfg_uriParams := {| headers := headers (cfg_uriParams cfg);
                                       validate_certs := None |};
                   cfg_warning := Absent |} (start args server)) as [l Hl].
    revert Hrun Hl. unfold run, bind at 1, lift. rewrite Hq. unfold bind.
    destruct (reconcile _ _ _) as [[e|c] w'] eqn:Hrec; simpl.
    + intros [= _ ->]. unfold start. simpl. by destruct l.
    + unfold ret. done.
Qed.

End TextFlag.

Lemma truthy_text_flag_stops_the_run_witness :
  let args := {| repository_configs := Given [Examples.repo "libs"];
                 state := None;
                 artifactory_base_url := Given "https://artifactory.example.com";
                 auth_type := Some "ApiKey";
                 auth_string := Given "secret";
                 ignore_ca_error := Some (VStr "off") |} in
  let server : Store.store := [("libs", Examples.repo "libs")] in
  "off" ≠ EmptyString ∧ lower "off" ∉ ["false"; "no"]
  ↔ run false args Absent (start args server)
    = (inl (KeyError "warning"), start args server).
Proof.
  intros args server.
  refine (truthy_text_flag_stops_the_run false args server
            {| cfg_repository_configs := [Examples.repo "libs"];
               cfg_state := "present";
               cfg_baseUrl := "https://artifactory.example.com/artifactory/";
               cfg_uriParams := {| headers := {[ "X-JFrog-Art-Api" := VStr "secret" ]};
                                   validate_certs := Some "no" |};
               cfg_warning := Given [ca_warning] |} "off" _ _).
  - vm_compute. reflexivity.
  - reflexivity.
Defined.

(** ** Creations and updates, lines 204-259 *)

Section Creations.
Context {S : Type} `{Remote S}.

Lemma for_each_app {Σ A} (body : A → M Σ unit) (l1 l2 : list A) (σ : Σ) :
  for_each body (l1 ++ l2) σ = bind (for_each body l1) (λ _, for_each body l2) σ.
Proof.
  revert σ. induction l1 as [|x l1 IH]; intros σ; simpl; [reflexivity|].
  unfold bind in *. destruct (body x σ) as [[e|[]] σ']; [done|]. apply IH.
Qed.

Lemma sort_nothing_listed (h : list dict) :
  sort_repositories [] h = (inr (Parts (seq 0 (length h)) [] []), h).
Proof.
  unfold sort_repositories, bind at 1, get. simpl.
  generalize (Parts (seq 0 (length h)) [] []) as p. generalize (seq 0 (length h)) as refs.
  induction refs as [|ref refs IH]; intros p; [done|]. simpl. apply IH.
Qed.

(** One creation, whatever the server answers. *)
Lemma add_step cfg ref (w : world S) d k :
  heap w !! ref = Some d → d !! "key" = Some (VStr k) →
  add_repository cfg ref w
  = (match (put_repository (cfg_uriParams cfg) k d (remote w)).1 with
     | UriOk _ => inr tt
     | UriFailed status message =>
         inl (failure ("Adding repository " ++ k ++ " to artifactory")%string status message)
     end,
     World (heap w) (put_repository (cfg_uriParams cfg) k d (remote w)).2
       (calls w ++ [PutRepository k d])).
Proof.
  intros Hd Hk. unfold add_repository.
  erewrite bind_inr; [|by apply deref_key_at].
  unfold bind, lift, uri_write. rewrite (url_key_keyed d k Hk).
  by destruct (put_repository (cfg_uriParams cfg) k d (remote w)) as [[st m|[]] s'].
Qed.

(** The creation loop over the records [ds], which sit in the heap from
    position [i] on, when the server accepts each of them. *)
Lemma add_loop_sends cfg (ds : list dict) (keys : list string) :
  Forall2 (λ d k, d !! "key" = Some (VStr k) ∧
                  ∀ s, (put_repository (cfg_uriParams cfg) k d s).1 = UriOk tt) ds keys →
  ∀ (i : nat) (w : world S),
    (∀ j d, ds !! j = Some d → heap w !! (i + j) = Some d) →
    for_each (add_repository cfg) (seq i (length ds)) w
    = (inr tt,
       World (heap w)
         (foldl (λ s kd, (put_repository (cfg_uriParams cfg) kd.1 kd.2 s).2)
            (remote w) (zip keys ds))
         (calls w ++ zip_with PutRepository keys ds)).
Proof.
  induction 1 as [|d k ds keys [Hk Hok] _ IH]; intros i w Hheap; simpl.
  - rewrite app_nil_r. by destruct w.
  - assert (heap w !! i = Some d) as Hd.
    { specialize (Hheap 0 d eq_refl). by rewrite Nat.add_0_r in Hheap. }
    erewrite bind_inr; [|rewrite (add_step cfg i w d k Hd Hk), Hok; reflexivity].
    rewrite IH; simpl.
    + by rewrite <-(assoc_L (++)).
    + intros j d' Hj. specialize (Hheap (Datatypes.S j) d' Hj).
      by rewrite Nat.add_succ_r in Hheap.
Qed.

Lemma bind_assoc {Σ A B C} (m : M Σ A) (f : A → M Σ B) (g : B → M Σ C) (σ : Σ) :
  bind (bind m f) g σ = bind m (λ x, bind (f x) g) σ.
Proof. unfold bind. by destruct (m σ) as [[e|a] σ']. Qed.

Lemma bind_ext {Σ A B} (m : M Σ A) (f g : A → M Σ B) (σ : Σ) :
  (∀ a σ', f a σ' = g a σ') → bind m f σ = bind m g σ.
Proof. intros Hfg. unfold bind. by destruct (m σ) as [[e|a] σ']. Qed.

Lemma nothing_to_update_or_delete check cfg (refs : list nat) (a : nat) (w : world S) :
  (updated <- update_repositories check cfg (Parts refs [] []);;
   deleted <- delete_repositories check cfg (Parts refs [] []);;
   ret (Counts a updated deleted)) w
  = (inr (Counts a 0 0), w).
Proof.
  unfold update_repositories. simpl. rewrite andb_false_r.
  unfold delete_repositories. unfold bind at 1, ret at 1.
  erewrite bind_inr; [reflexivity|].
  erewrite bind_inr; [|apply toRemove_returns]. simpl.
  by rewrite !andb_false_r.
Qed.

Lemma string_app_assoc (a b c : string) : ((a ++ b) ++ c = a ++ (b ++ c))%string.
Proof.
  induction a as [|x a IH]; [done|].
  change (String x ((a ++ b) ++ c) = String x (a ++ (b ++ c)))%string. by rewrite IH.
Qed.

Lemma run_prepared check args pw (w : world S) cfg :
  prepare args pw = inr cfg →
  run check args pw w = bind (reconcile check cfg) (λ c, ret (report cfg c)) w.
Proof. intros Hp. unfold run, bind at 1, lift. by rewrite Hp. Qed.

Lemma reconcile_nothing_listed check cfg (w : world S) :
  list_repositories (cfg_uriParams cfg) (remote w) = UriOk [] →
  cfg_state cfg = "present" ∨ cfg_state cfg = "prune" →
  reconcile check cfg w
  = bind (if check then ret tt
          else for_each (add_repository cfg) (seq 0 (length (heap w))))
      (λ _, ret (Counts (length (heap w)) 0 0))
      (World (heap w) (remote w) (calls w ++ [ListRepositories])).
Proof.
  intros Hlist Hstate. unfold reconcile.
  erewrite bind_inr; [|unfold uri_read; rewrite Hlist; reflexivity].
  cbv beta iota.
  erewrite (bind_inr (on_heap _));
    [|unfold on_heap; cbn [heap]; rewrite sort_nothing_listed; reflexivity].
  assert (is_present_or_prune cfg = true) as Hpp.
  { unfold is_present_or_prune. by destruct Hstate as [-> | ->]. }
  unfold add_repositories. rewrite Hpp. cbn [onlyInArgs andb].
  destruct (nonempty (seq 0 (length (heap w)))) eqn:Hne.
  - rewrite bind_assoc. apply bind_ext. intros [] w'.
    unfold bind at 1, ret at 1. rewrite nothing_to_update_or_delete.
    by rewrite length_seq.
  - unfold bind at 1, ret at 1. rewrite nothing_to_update_or_delete.
    destruct (length (heap w)); [|done]. by destruct check.
Qed.

(** X9: a first run.  Against a server that lists nothing and accepts
    every creation, a run with target state Present or Prune sends one
    PUT for each desired record, in the order of the list and with the
    record as body, and nothing else after the listing; it counts every
    record as added.  In check mode it reports the same and sends the
    listing only. *)
Theorem first_run_creates_every_record (args : task_args)
    (parent_warning : arg (list string)) (server : S) (cfg : config) (keys : list string) :
  prepare args parent_warning = inr cfg →
  cfg_state cfg ≠ "absent" →
  list_repositories (cfg_uriParams cfg) server = UriOk [] →
  Forall2 (λ d k, d !! "key" = Some (VStr k)) (cfg_repository_configs cfg) keys →
  (∀ k d s, (put_repository (cfg_uriParams cfg) k d s).1 = UriOk tt) →
  let configs := cfg_repository_configs cfg in
  let result := report cfg (Counts (length configs) 0 0) in
  run false args parent_warning (start args server)
  = (inr result,
     World configs
       (foldl (λ s kd, (put_repository (cfg_uriParams cfg) kd.1 kd.2 s).2)
          server (zip keys configs))
       (ListRepositories :: zip_with PutRepository keys configs)) ∧
  run true args parent_warning (start args server)
  = (inr result, World configs server [ListRepositories]).
Proof.
  intros Hp Hstate Hlist Hkeys Hok configs result.
  pose proof (prepare_returns _ _ _ Hp)
    as (configs' & base & hd & Hargs & _ & _ & _ & _ & Hst & _ & _ & Hcfg & _).
  assert (start args server = World configs server []) as ->.
  { subst configs. unfold start. by rewrite Hargs, Hcfg. }
  assert (cfg_state cfg = "present" ∨ cfg_state cfg = "prune") as Hpp.
  { by destruct Hst as [?|[?|?]]; [|left|right]. }
  rewrite !(run_prepared _ _ _ _ cfg) by done. split.
  - erewrite bind_inr; [reflexivity|].
    rewrite reconcile_nothing_listed by done. simpl.
    erewrite bind_inr; [reflexivity|].
    apply (add_loop_sends cfg configs keys).
    + eapply Forall2_impl; [exact Hkeys|]. intros d k Hk. split; [done|]. apply Hok.
    + intros j d Hj. done.
  - erewrite bind_inr; [reflexivity|].
    by rewrite reconcile_nothing_listed.
Qed.

(** X14: the creations stop at the first refusal.  Against a server
    that lists nothing, when it accepts the records [before] and refuses
    the record [d], the run raises [TypeError] and not the
    [AnsibleActionFail] of line 221, whose message cannot be built: the
    status of the refusal is an [int].  The PUT of [d] is the last
    request, and no record after [d] is sent. *)
Theorem failed_creation_stops_the_run (args : task_args)
    (parent_warning : arg (list string)) (server : S) (cfg : config)
    (before after : list dict) (d : dict) (keys : list string) (k : string)
    (status : Z) (message : string) :
  prepare args parent_warning = inr cfg →
  cfg_state cfg ≠ "absent" →
  cfg_repository_configs cfg = before ++ d :: after →
  list_repositories (cfg_uriParams cfg) server = UriOk [] →
  Forall2 (λ d k, d !! "key" = Some (VStr k) ∧
                  ∀ s, (put_repository (cfg_uriParams cfg) k d s).1 = UriOk tt) before keys →
  d !! "key" = Some (VStr k) →
  (∀ s, (put_repository (cfg_uriParams cfg) k d s).1 = UriFailed status message) →
  let accepted :=
    foldl (λ s kd, (put_repository (cfg_uriParams cfg) kd.1 kd.2 s).2) server (zip keys before) in
  run false args parent_warning (start args server)
  = (inl TypeError,
     World (before ++ d :: after)
       (put_repository (cfg_uriParams cfg) k d accepted).2
       (ListRepositories :: zip_with PutRepository keys before ++ [PutRepository k d])).
Proof.
  intros Hp Hstate Hconfigs Hlist Hbefore Hk Hrefused accepted.
  pose proof (prepare_returns _ _ _ Hp)
    as (configs' & base & hd & Hargs & _ & _ & _ & _ & Hst & _ & _ & Hcfg & _).
  assert (start args server = World (before ++ d :: after) server []) as ->.
  { unfold start. by rewrite Hargs, <-Hcfg, Hconfigs. }
  assert (cfg_state cfg = "present" ∨ cfg_state cfg = "prune") as Hpp.
  { by destruct Hst as [?|[?|?]]; [|left|right]. }
  rewrite (run_prepared _ _ _ _ cfg) by done.
  erewrite bind_inl; [reflexivity|].
  rewrite reconcile_nothing_listed by done. simpl.
  erewrite bind_inl; [reflexivity|].
  rewrite length_app. simpl. rewrite seq_app. simpl.
  rewrite for_each_app.
  erewrite bind_inr.
  2:{ apply (add_loop_sends cfg before keys Hbefore 0). simpl.
      intros j d' Hj. by apply lookup_app_l_Some. }
  simpl. erewrite bind_inl; [reflexivity|].
  rewrite (add_step cfg (length before) _ d k); simpl; [|by apply list_lookup_middle|done].
  rewrite Hrefused. reflexivity.
Qed.

(** X15: one turn of the update loop.  When the server shows [current]
    under the key of the desired record and accepts the update, the record
    counts as updated exactly when it is not contained in [current], that
    is when one of its fields is missing there or differs; fields that
    only the server has do not count.  The GET is always sent, and the
    POST with the desired record as body only for a counted record
    outside check mode. *)
Theorem update_counts_what_is_not_contained (check_mode : bool) (cfg : config) (ref n : nat)
    (w : world S) (d current : dict) (k : string) :
  heap w !! ref = Some d →
  d !! "key" = Some (VStr k) →
  get_repository (cfg_uriParams cfg) k (remote w) = UriOk current →
  (post_repository (cfg_uriParams cfg) k d (remote w)).1 = UriOk tt →
  let quiet := check_mode || bool_decide (d ⊆ current) in
  update_repository check_mode cfg ref n w
  = (inr (if bool_decide (d ⊆ current) then n else n + 1),
     World (heap w)
       (if quiet then remote w else (post_repository (cfg_uriParams cfg) k d (remote w)).2)
       (calls w ++ GetRepository k :: if quiet then [] else [PostRepository k d])).
Proof.
  intros Hd Hk Hget Hpost quiet. subst quiet. unfold update_repository.
  erewrite bind_inr; [|by apply deref_key_at].
  unfold bind, lift, uri_read, uri_write. rewrite (url_key_keyed d k Hk). simpl.
  rewrite Hget.
  destruct (decide (d ⊆ current)) as [Hsub|Hsub].
  - rewrite (bool_decide_eq_true_2 (d ⊆ current)) by done.
    rewrite bool_decide_eq_false_2; [by rewrite orb_true_r|].
    intros Hne. apply Hne. by apply map_subseteq_union.
  - rewrite (bool_decide_eq_false_2 (d ⊆ current)) by done.
    rewrite bool_decide_eq_true_2.
    2:{ intros Heq. apply Hsub. rewrite <-Heq. apply map_union_subseteq_l. }
    rewrite orb_false_r. destruct check_mode; simpl; [done|].
    destruct (post_repository (cfg_uriParams cfg) k d (remote w)) as [r s'].
    simpl in *. subst r. simpl. by rewrite <-(assoc_L (++)).
Qed.

End Creations.

(** ** What the partition decides, lines 186-197 *)

Section Decided.

(** A loop keeps what each of its turns adds to, turn after turn. *)
Lemma for_fold_prefix {Σ A B} (I : list A → Σ → B → Prop) (P : A → Prop)
    (body : A → B → M Σ B) (l : list A) :
  (∀ pre x b σ b' σ', P x → I pre σ b → body x b σ = (inr b', σ') → I (pre ++ [x]) σ' b') →
  Forall P l →
  ∀ pre b σ b' σ', I pre σ b → for_fold body l b σ = (inr b', σ') → I (pre ++ l) σ' b'.
Proof.
  intros Hbody Hl. induction Hl as [|x l Hx _ IH]; intros pre b σ b' σ' HI; simpl.
  - unfold ret. intros ?; simplify_eq. by rewrite app_nil_r.
  - intros Hrun. apply bind_returns in Hrun as (b1 & σ1 & Hstep & Hrest).
    rewrite cons_middle, (assoc_L (++)). eapply IH; [|exact Hrest]. by eapply Hbody.
Qed.

Variables (items h0 : list dict).

Lemma sort_item_deciding (over : list nat) (i : nat) (seen : list dict) (item : dict)
    (p p' : parts) (h h' : list dict) :
  keyed item →
  deciding items h0 over (Some i) seen h p →
  sort_item i item p h = (inr p', h') →
  deciding items h0 over (Some i) (seen ++ [item]) h' p'.
Proof.
  intros Hitem (Hs & Hsame & Hover & Hturn & Hboth & Hart) Hstep.
  pose proof (sort_item_sorting i item p p' h h' Hitem Hs Hstep) as Hs'.
  destruct Hitem as [ki Hki]. pose proof Hs as (Hkeyed & Hnd & Hrefs & Hsome & _).
  pose proof (λ d, Hturn i d eq_refl) as Hmine.
  revert Hstep. unfold sort_item, bind, get, lift, put, raise, ret. simpl.
  destruct (h !! i) as [repo|] eqn:Hi; simpl.
  2:{ intros ?; simplify_eq. split_and!; try done.
      intros j d Hj Hin Hd. injection Hj as <-. rewrite <-Hsame, Hi in Hd by done. done. }
  destruct (Forall_lookup_1 _ _ _ _ Hkeyed Hi) as [kr Hkr].
  unfold getitem. rewrite Hki, Hkr. simpl.
  destruct (String.eqb (lower ki) (lower kr)) eqn:Heq; simpl.
  2:{ intros ?; simplify_eq. split_and!; try done.
      intros j d Hj Hin Hd. injection Hj as <-. pose proof Hd as Hd0.
      rewrite <-Hsame, Hi in Hd by done. injection Hd as <-.
      rewrite fmap_app. simpl. intros Hmatch. apply elem_of_app in Hmatch as [Hmatch|Hmatch].
      - by apply (Hmine repo).
      - apply list_elem_of_singleton in Hmatch.
        rewrite (keyed_lower_key repo kr), (keyed_lower_key item ki) in Hmatch by done.
        apply String.eqb_neq in Heq. by rewrite Hmatch in Heq. }
  apply String.eqb_eq in Heq.
  destruct (remove_first _ (onlyInArgs p)) as [oa'|] eqn:Hoa; simpl; [|done].
  destruct (remove_first _ (onlyInArtifactory p)) as [art'|] eqn:Hrm; simpl; [|done].
  intros ?; simplify_eq.
  apply remove_first_split in Hoa as (l1 & j & l2 & Hoa & -> & Hj).
  apply remove_first_split in Hrm as (a1 & x & a2 & Hrm & -> & Hx).
  apply bool_decide_eq_true_1 in Hj. apply bool_decide_eq_true_1 in Hx. subst x.
  assert (j = i) as -> by (by eapply same_lower_key_same_ref).
  set (repo' := <["key" := VStr ki]> repo) in *.
  rewrite Hoa in Hrefs.
  assert (i ∉ l1 ++ l2) as Hgone.
  { apply NoDup_app in Hrefs as (Hoa' & _ & _).
    rewrite <-Permutation_middle in Hoa'. by apply NoDup_cons in Hoa' as [? _]. }
  assert (i ∉ inBoth p) as Hout.
  { apply NoDup_app in Hrefs as (_ & Hdisj & _). apply Hdisj.
    apply elem_of_app. right. by left. }
  assert (∀ ref, ref ∈ l1 ++ l2 → ref ∈ onlyInArgs p) as Hstill.
  { intros ref Hin. rewrite Hoa. apply elem_of_app in Hin as [?|?].
    - apply elem_of_app. by left.
    - apply elem_of_app. right. by right. }
  assert (i ∈ onlyInArgs p) as Hwas.
  { rewrite Hoa. apply elem_of_app. right. by left. }
  split_and!; simpl; try done.
  - intros ref Hin. rewrite list_lookup_insert_ne by (by intros ->). by apply Hsame, Hstill.
  - intros ref d Hin. by apply Hover, Hstill.
  - intros j d Hturned Hin. by injection Hturned as <-.
  - intros ref Hin. apply elem_of_app in Hin as [Hin|Hin].
    + rewrite list_lookup_insert_ne by (by intros ->). by apply Hboth.
    + apply list_elem_of_singleton in Hin as ->.
      exists repo, repo'. split_and!.
      * by rewrite <-Hsame.
      * apply Hart. rewrite Hrm. apply elem_of_app. right. by left.
      * rewrite (keyed_lower_key repo' ki) by apply lookup_insert_eq.
        by rewrite (keyed_lower_key repo kr).
      * apply list_lookup_insert_eq. by eapply lookup_lt_Some.
  - intros x Hin. apply Hart. rewrite Hrm. apply elem_of_app in Hin as [?|?].
    + apply elem_of_app. by left.
    + apply elem_of_app. right. by right.
Qed.

Lemma sort_repositories_deciding (h' : list dict) (p : parts) :
  Forall keyed h0 → NoDup (lower_key <$> h0) → Forall keyed items →
  sort_repositories items h0 = (inr p, h') →
  deciding items h0 (seq 0 (length h0)) None [] h' p.
Proof.
  intros Hkeyed Hnd Hitems. unfold sort_repositories. unfold bind at 1, get. simpl.
  refine (for_fold_prefix (λ over h p, deciding items h0 over None [] h p) (λ _, True) _ _
            _ _ [] _ _ _ _ _).
  - intros over i p0 h1 p1 h2 _ (Hs & Hsame & Hover & _ & Hboth & Hart) Hinner.
    assert (deciding items h0 over (Some i) ([] ++ items) h2 p1)
      as (Hs' & Hsame' & Hover' & Hturn' & Hboth' & Hart').
    { revert Hinner.
      apply (for_fold_prefix (λ seen h p, deciding items h0 over (Some i) seen h p) keyed);
        [|done|].
      - intros seen item q σ q' σ' Hitem Hd Hstep. by eapply sort_item_deciding.
      - split_and!; try done. intros j d _ _ _ Hin. by apply elem_of_nil in Hin. }
    split_and!; try done.
    intros ref d Hin Hdone Hd. apply elem_of_app in Hdone as [Hdone|Hdone].
    + by eapply Hover'.
    + apply list_elem_of_singleton in Hdone as ->. by eapply (Hturn' i d).
  - by apply Forall_true.
  - split_and!; simpl; try done.
    + unfold sorting. simpl. rewrite app_nil_r. split_and!; try done.
      * apply NoDup_seq.
      * apply Forall_forall. intros ref Href. apply lookup_lt_is_Some.
        apply elem_of_seq in Href. lia.
    + intros ref d _ Hin. by apply elem_of_nil in Hin.
    + intros ref Hin. by apply elem_of_nil in Hin.
Qed.

(** X13: what the partition decides, when it returns on validated
    arguments.  A record left in [onlyInArgs] is as the caller wrote it
    and no listed record carries its key, even up to case; a record in
    [inBoth] has become a listed record whose key is its own up to
    case. *)
Theorem partition_decides_by_key (h' : list dict) (p : parts) :
  Forall keyed h0 → NoDup (lower_key <$> h0) → Forall keyed items →
  sort_repositories items h0 = (inr p, h') →
  (∀ ref, ref ∈ onlyInArgs p →
     ∃ d, h0 !! ref = Some d ∧ h' !! ref = Some d ∧ lower_key d ∉ lower_key <$> items) ∧
  (∀ ref, ref ∈ inBoth p →
     ∃ d item, h0 !! ref = Some d ∧ item ∈ items ∧ lower_key item = lower_key d ∧
               h' !! ref = Some item).
Proof.
  intros Hkeyed Hnd Hitems Hsort.
  destruct (sort_repositories_deciding h' p Hkeyed Hnd Hitems Hsort)
    as (Hs & Hsame & Hover & _ & Hboth & _).
  split; [|done]. intros ref Hin.
  destruct Hs as (_ & _ & _ & Hsome & _).
  assert (is_Some (h' !! ref)) as [d Hd].
  { apply (proj1 (Forall_forall _ _) Hsome). apply elem_of_app. by left. }
  pose proof Hd as Hd0. rewrite Hsame in Hd0 by done.
  exists d. split_and!; [done..|]. eapply Hover; [done| |done].
  apply elem_of_seq. apply lookup_lt_Some in Hd0. lia.
Qed.

End Decided.

Lemma first_run_creates_every_record_witness :
  let desired := [Examples.repo "libs"; Examples.repo "tools"] in
  let args := Examples.task desired "Prune" in
  let cfg := Examples.prepared desired "prune" in
  let server : Store.store := [] in
  let result := report cfg (Counts 2 0 0) in
  run false args (Given []) (start args server)
  = (inr result,
     World desired [("libs", Examples.repo "libs"); ("tools", Examples.repo "tools")]
       [ListRepositories; PutRepository "libs" (Examples.repo "libs");
        PutRepository "tools" (Examples.repo "tools")]) ∧
  run true args (Given []) (start args server)
  = (inr result, World desired server [ListRepositories]).
Proof.
  intros desired args cfg server.
  refine (first_run_creates_every_record args (Given []) server cfg ["libs"; "tools"]
            _ _ _ _ _).
  - vm_compute. reflexivity.
  - discriminate.
  - reflexivity.
  - repeat constructor.
  - intros k d s. reflexivity.
Defined.

Lemma failed_creation_stops_the_run_witness :
  let desired := [Examples.repo "libs"; Examples.repo "system-index"; Examples.repo "tools"] in
  let args := Examples.task desired "Present" in
  let server := Guard.Guarded [] in
  run false args (Given []) (start args server)
  = (inl TypeError,
     World desired (Guard.Guarded [("libs", Examples.repo "libs")])
       [ListRepositories; PutRepository "libs" (Examples.repo "libs");
        PutRepository "system-index" (Examples.repo "system-index")]).
Proof.
  intros desired args server.
  refine (failed_creation_stops_the_run args (Given []) server
            (Examples.prepared desired "present")
            [Examples.repo "libs"] [Examples.repo "tools"] (Examples.repo "system-index")
            ["libs"] "system-index" 403 "Forbidden" _ _ _ _ _ _ _).
  - vm_compute. reflexivity.
  - discriminate.
  - reflexivity.
  - reflexivity.
  - repeat constructor.
  - reflexivity.
  - intros s. reflexivity.
Defined.

Lemma update_counts_what_is_not_contained_witness :
  let d := Examples.described "libs" "Shared libraries" in
  let cfg := Examples.prepared [d] "present" in
  let w : world Store.store := World [d] [("libs", Examples.repo "libs")] [ListRepositories] in
  update_repository false cfg 0 0 w
  = (inr 1,
     World [d] [("libs", d)]
       [ListRepositories; GetRepository "libs"; PostRepository "libs" d]).
Proof.
  intros d cfg w.
  refine (update_counts_what_is_not_contained false cfg 0 0 w d (Examples.repo "libs") "libs"
            _ _ _ _).
  - reflexivity.
  - reflexivity.
  - vm_compute. reflexivity.
  - reflexivity.
Defined.

Lemma partition_when_it_returns_witness :
  let items := [Examples.repo "Libs"; Examples.summary "old"] in
  let h := [Examples.repo "libs"; Examples.repo "tools"] in
  let h' := [Examples.repo "Libs"; Examples.repo "tools"] in
  let p := Parts [1] [0] [Examples.summary "old"] in
  NoDup (onlyInArgs p ++ inBoth p) ∧ partitioned items h' p.
Proof.
  intros items h h' p.
  refine (partition_when_it_returns items h h' p _ _ _ _).
  - repeat constructor; eexists; vm_compute; reflexivity.
  - vm_compute. repeat constructor; intros Hin;
      repeat (apply elem_of_cons in Hin as [Hin|Hin]; [discriminate|]);
      by apply elem_of_nil in Hin.
  - repeat constructor; eexists; vm_compute; reflexivity.
  - vm_compute. reflexivity.
Defined.

Lemma partition_decides_by_key_witness :
  let items := [Examples.repo "Libs"; Examples.summary "old"] in
  let h := [Examples.repo "libs"; Examples.repo "tools"] in
  let h' := [Examples.repo "Libs"; Examples.repo "tools"] in
  let p := Parts [1] [0] [Examples.summary "old"] in
  (∀ ref, ref ∈ onlyInArgs p →
     ∃ d, h !! ref = Some d ∧ h' !! ref = Some d ∧ lower_key d ∉ lower_key <$> items) ∧
  (∀ ref, ref ∈ inBoth p →
     ∃ d item, h !! ref = Some d ∧ item ∈ items ∧ lower_key item = lower_key d ∧
               h' !! ref = Some item).
Proof.
  intros items h h' p.
  refine (partition_decides_by_key items h h' p _ _ _ _).
  - repeat constructor; eexists; vm_compute; reflexivity.
  - vm_compute. repeat constructor; intros Hin;
      repeat (apply elem_of_cons in Hin as [Hin|Hin]; [discriminate|]);
      by apply elem_of_nil in Hin.
  - repeat constructor; eexists; vm_compute; reflexivity.
  - vm_compute. reflexivity.
Defined.

(** Capital letters beyond A to Z: the keys É (201) and é (233) are
    one key up to case, to the duplicate test and to the partition. *)
Lemma capital_letters_beyond_ascii :
  let capital := String (Ascii.ascii_of_nat 201) EmptyString in
  let small := String (Ascii.ascii_of_nat 233) EmptyString in
  lower capital = small ∧
  unique_keys [Examples.repo capital; Examples.repo small]
  = inl (AnsibleOptionsError unique_key_msg) ∧
  sort_repositories [Examples.repo small] [Examples.repo capital]
  = (inr (Parts [] [0] []), [Examples.repo small]).
Proof. cbv zeta. split_and!; vm_compute; reflexivity. Qed.

Lemma sort_single_match_witness :
  sort_repositories [Examples.summary "Libs"] [Examples.repo "libs"]
  = (if bool_decide (Examples.summary "Libs" = <["key" := VStr "Libs"]> (Examples.repo "libs"))
     then inr (Parts [] [0] [])
     else inl ValueError,
     [<["key" := VStr "Libs"]> (Examples.repo "libs")]).
Proof.
  refine (sort_single_match (Examples.repo "libs") (Examples.summary "Libs")
            (VStr "libs") (VStr "Libs") _ _ _); reflexivity.
Defined.

(** ** The declarative API, whatever the endpoint *)

Section Records.
Import ArtifactoryApi.

(** X17: the comparison of two records, in [__eq__] and in
    [deepEquals], reads the field ['key'] and nothing else: with an empty
    list of names it answers that the records are equal, and with any
    other list it answers whether their ['key'] fields are, whatever the
    names in the list and the other fields of the records. *)
Theorem comparison_reads_the_key_field_only (keys : list string) (self other : ConfigRecord)
    (mine theirs : value) :
  json_item (record self) "key" = inr mine →
  json_item (record other) "key" = inr theirs →
  compare_key_field keys self other
  = inr (match keys with [] => true | _ => bool_decide (theirs = mine) end).
Proof.
  intros Hs Ho. destruct keys as [|key keys]; [done|].
  destruct (decide (theirs = mine)) as [->|Hne].
  - rewrite bool_decide_eq_true_2 by done. generalize (key :: keys) as l.
    induction l as [|x l IH]; simpl; [done|].
    rewrite Ho, Hs. simpl. by rewrite bool_decide_eq_false_2 by (intros Hne; by apply Hne).
  - rewrite bool_decide_eq_false_2 by done. simpl. rewrite Ho, Hs. simpl.
    by rewrite bool_decide_eq_true_2.
Qed.

(** X18: [_sortConfigs] returns only for an empty sequence of desired
    records against a list: it then hands the list back as
    [onlyInListB].  In every other case it raises. *)
Theorem sortConfigs_returns_iff (A B : pyobj)
    (r : list ConfigRecord * list ConfigRecord * list ConfigRecord) :
  _sortConfigs A B = inr r
  ↔ ∃ l, B = PyList l ∧ (A = PyList [] ∨ A = PyTuple []) ∧ r = ([], [], l).
Proof.
  split.
  - intros Hr. destruct B as [lB|lB|rB]; [|vm_compute in Hr; discriminate..].
    destruct A as [[|a lA]|[|a lA]|rA].
    + vm_compute in Hr. simplify_eq. exists lB. eauto.
    + destruct lB; vm_compute in Hr; discriminate.
    + vm_compute in Hr. simplify_eq. exists lB. eauto.
    + destruct lB; vm_compute in Hr; discriminate.
    + vm_compute in Hr. discriminate.
  - intros (l & -> & [-> | ->] & ->); reflexivity.
Qed.

(** X26: no two records can be compared.  [__eq__] and [deepEquals]
    raise [AttributeError] on every pair of records, whatever their
    fields and key lists: both begin by reading [self.ConfigRecord],
    which a record does not have. *)
Theorem records_cannot_be_compared (self other : ConfigRecord) :
  __eq__ self other = inl AttributeError ∧ deepEquals self other = inl AttributeError.
Proof. split; reflexivity. Qed.

End Records.

Lemma comparison_reads_the_key_field_only_witness :
  ArtifactoryApi.compare_key_field ["enabled"; "key"]
    (Examples.ldap_record (Examples.ldap "a" true))
    (Examples.ldap_record (Examples.ldap "b" true))
  = inr (bool_decide (VStr "b" = VStr "a")).
Proof.
  refine (comparison_reads_the_key_field_only ["enabled"; "key"] _ _ (VStr "a") (VStr "b") _ _);
    reflexivity.
Defined.

Section AnyEndpoint.
Import ArtifactoryApi.
Context {S : Type} `{!Endpoint (S := S)}.

Lemma set_configs_twice (a : api) (x y : pyobj) :
  set_configs (set_configs a x) y = set_configs a y.
Proof. reflexivity. Qed.

Lemma load_configs_snoc (configs : list dict) (config : dict) (s : session S) :
  load_configs (configs ++ [config]) s
  = (inr tt,
     Session (set_configs (self s)
                (PyConfigRecord {| record := JObject config; _keylist := keyList (self s) |}))
       (server s) (wire s)).
Proof.
  revert s. induction configs as [|c configs IH]; intros s; [reflexivity|].
  unfold load_configs in *. simpl. erewrite bind_inr; [|reflexivity].
  rewrite IH. reflexivity.
Qed.

(** X19: of the desired records only the last one is kept.  After the
    loop that loads them, [self.configs] is one record, the last of the
    list, and not a list of records; the rest of the object, the server
    and the requests sent are as they were. *)
Theorem load_configs_keeps_the_last (configs : list dict) (config : dict) (s : session S) :
  load_configs (configs ++ [config]) s
  = (inr tt,
     Session (set_configs (self s)
                (PyConfigRecord {| record := JObject config; _keylist := keyList (self s) |}))
       (server s) (wire s)).
Proof. apply load_configs_snoc. Qed.

Lemma load_configs_some (configs : list dict) (s : session S) :
  configs ≠ [] →
  ∃ r, load_configs configs s
       = (inr tt, Session (set_configs (self s) (PyConfigRecord r)) (server s) (wire s)).
Proof.
  intros Hne. destruct (exists_last Hne) as (l & c & ->).
  eexists. apply load_configs_snoc.
Qed.

(** X20: with at least one desired record the three operations raise
    [TypeError] on every endpoint that lists its records as the base
    class asks, as a list: [_sortConfigs] iterates over [self.configs],
    which is a single record. *)
Theorem operations_raise_on_desired_records (configs : list dict) (s : session S) :
  configs ≠ [] →
  (∀ σ, ∃ l σ', _getConfigRecordListFromArtifactory σ = (inr (PyList l), σ') ∧
                self σ' = self σ) →
  (applyConfigs configs s).1 = inl TypeError ∧
  (deleteConfigs configs s).1 = inl TypeError ∧
  (pruneConfigs configs s).1 = inl TypeError.
Proof.
  intros Hne Hfetch.
  destruct (load_configs_some configs s Hne) as (r & Hload).
  destruct (Hfetch (Session (set_configs (self s) (PyConfigRecord r)) (server s) (wire s)))
    as (l & σ' & Hl & Hself).
  assert (sorted (Session (set_configs (self s) (PyConfigRecord r)) (server s) (wire s))
          = (inl TypeError, σ')) as Hsorted.
  { unfold sorted. erewrite bind_inr; [|exact Hl].
    unfold bind, get, lift. simpl. by rewrite Hself. }
  unfold applyConfigs, deleteConfigs, pruneConfigs.
  split_and!; (erewrite bind_inr; [|exact Hload]); by (erewrite bind_inl; [|exact Hsorted]).
Qed.

(** X21: with no desired record, on an object that holds none yet and
    an endpoint that lists the records [l]: [applyConfigs] and
    [deleteConfigs] report no change and call none of the endpoint's
    writing methods, and [pruneConfigs] deletes every listed record, in
    order. *)
Theorem operations_without_desired_records (s s' : session S) (l : list ConfigRecord) :
  configs (self s) = PyList [] →
  _getConfigRecordListFromArtifactory s = (inr (PyList l), s') →
  self s' = self s →
  applyConfigs [] s = (inr false, s') ∧
  deleteConfigs [] s = (inr false, s') ∧
  pruneConfigs [] s
  = (if nonempty l then for_each _deleteFromArtifactory l;;; ret true else ret false) s'.
Proof.
  intros Hempty Hfetch Hself.
  assert (sorted s = (inr ([], [], l), s')) as Hsorted.
  { unfold sorted. erewrite bind_inr; [|exact Hfetch].
    unfold bind, get, lift. simpl. by rewrite Hself, Hempty. }
  unfold applyConfigs, deleteConfigs, pruneConfigs. simpl.
  split_and!; (erewrite bind_inr; [|reflexivity]); (erewrite bind_inr; [|exact Hsorted]);
    reflexivity.
Qed.

End AnyEndpoint.

Lemma operations_raise_on_desired_records_witness :
  let s := ArtifactoryApi.Session (Examples.ldap_api false)
             [ArtifactoryApi.JObject (Examples.ldap "a" true)] [] in
  let desired := [Examples.ldap "a" true] in
  (ArtifactoryApi.applyConfigs (H0 := Shelf.shelf_endpoint) desired s).1 = inl TypeError ∧
  (ArtifactoryApi.deleteConfigs (H0 := Shelf.shelf_endpoint) desired s).1 = inl TypeError ∧
  (ArtifactoryApi.pruneConfigs (H0 := Shelf.shelf_endpoint) desired s).1 = inl TypeError.
Proof.
  intros s desired.
  refine (operations_raise_on_desired_records (Endpoint0 := Shelf.shelf_endpoint) desired s _ _).
  - discriminate.
  - intros σ. exists (Shelf.shelved <$> ArtifactoryApi.server σ), σ. by split.
Defined.

Lemma operations_without_desired_records_witness :
  let a := ArtifactoryApi.JObject (Examples.ldap "a" true) in
  let b := ArtifactoryApi.JObject (Examples.ldap "b" false) in
  let s := ArtifactoryApi.Session (Examples.ldap_api false) [a; b] [] in
  ArtifactoryApi.applyConfigs (H0 := Shelf.shelf_endpoint) [] s = (inr false, s) ∧
  ArtifactoryApi.deleteConfigs (H0 := Shelf.shelf_endpoint) [] s = (inr false, s) ∧
  ArtifactoryApi.pruneConfigs (H0 := Shelf.shelf_endpoint) [] s
  = (inr true, ArtifactoryApi.Session (Examples.ldap_api false) [] []).
Proof.
  intros a b s.
  refine (operations_without_desired_records (Endpoint0 := Shelf.shelf_endpoint) s s
            [Shelf.shelved a; Shelf.shelved b] _ _ _); reflexivity.
Defined.

(** ** The LDAP endpoint, whatever the transport *)

Section LdapEndpoint.
Import ArtifactoryApi.
Context {S : Type} `{Transport S}.

(** X22: of the three writing methods of the LDAP endpoint only the
    creation can reach the server.  [_addToArtifactory] sends nothing in
    check mode and otherwise one POST to [addLdapSetting] with the record
    as body; [_deleteFromArtifactory] returns in check mode and otherwise
    raises [TypeError] before anything is sent, and
    [_updateInArtifactory] always does: both subscript the record. *)
Theorem ldap_writes_reach_the_server_only_to_add (r : ConfigRecord) (s : session S) :
  let call := {| sent_request := {| request_headers := headers (self s);
                                    validate_certs := ignore_ca_error (self s) |};
                 sent_method := "POST";
                 sent_url := baseUrl (self s) ++ "addLdapSetting";
                 sent_data := Some (record r) |} in
  let added := ArtifactoryLDAP._addToArtifactory r s in
  wire added.2 = wire s ++ (if inCheckMode (self s) then [] else [call]) ∧
  self added.2 = self s ∧
  ArtifactoryLDAP._deleteFromArtifactory r s
  = (if inCheckMode (self s) then inr tt else inl TypeError, s) ∧
  ArtifactoryLDAP._updateInArtifactory r s = (inl TypeError, s).
Proof.
  cbv zeta. unfold ArtifactoryLDAP._addToArtifactory, ArtifactoryLDAP._deleteFromArtifactory,
    _sendRequest, bind, get, put, lift, ret. simpl.
  destruct (inCheckMode (self s)); simpl.
  - rewrite app_nil_r. by split_and!.
  - destruct (open_url _ _) as [[e|j] srv]; simpl; by split_and!.
Qed.

(** X23: [_getConfigRecordListFromArtifactory] never returns a record.
    When it returns, it returns the empty tuple and the listing of the
    names is the only request it sent: with a name listed it raises, at
    the latest when it appends to the tuple. *)
Theorem ldap_listing_returns_no_record (s s' : session S) (o : pyobj) :
  ArtifactoryLDAP._getConfigRecordListFromArtifactory s = (inr o, s') →
  o = PyTuple [] ∧
  ∃ call, wire s' = wire s ++ [call] ∧
          sent_method call = "GET" ∧
          sent_url call = (baseUrl (self s) ++ "getLdapSettingsList")%string.
Proof.
  unfold ArtifactoryLDAP._getConfigRecordListFromArtifactory. intros Hrun.
  apply bind_returns in Hrun as (names & s1 & Hlist & Hloop).
  assert (∃ call, wire s1 = wire s ++ [call] ∧ sent_method call = "GET" ∧
                  sent_url call = (baseUrl (self s) ++ "getLdapSettingsList")%string)
    as Hsent.
  { revert Hlist. unfold _sendRequest, bind, get, put, lift. simpl.
    destruct (open_url _ _) as [[e|j] srv]; simpl; [done|].
    intros ?; simplify_eq. simpl. eauto. }
  destruct (ArtifactoryLDAP.names_of names) as [|name rest]; simpl in Hloop.
  - unfold ret in Hloop. by simplify_eq.
  - apply bind_returns in Hloop as (o1 & s2 & Hbody & _).
    apply bind_returns in Hbody as (config & s3 & _ & Hbody).
    by apply bind_returns in Hbody as ([] & s4 & Hattr & _).
Qed.

(** X24: [run_module] never reaches the server: whatever the
    parameters, the mode and the transport, it raises [TypeError] while
    it builds the API object, with nothing sent; and so does every call
    of [ArtifactoryLDAP.__init__], at its [super]. *)
Theorem ldap_module_never_runs (p : ArtifactoryLDAP.params) (check_mode : bool)
    (s : session S) :
  ArtifactoryLDAP.run_module p check_mode s = (inl TypeError, s) ∧
  ∀ url auth_type auth_string ignore_ca_error inCheckMode,
    ArtifactoryLDAP.__init__ url auth_type auth_string ignore_ca_error inCheckMode
    = inl TypeError.
Proof. split; reflexivity. Qed.

End LdapEndpoint.

Lemma ldap_listing_returns_no_record_witness :
  let s := ArtifactoryApi.Session (Examples.ldap_api false) ([] : list string) [] in
  ArtifactoryApi.PyTuple [] = ArtifactoryApi.PyTuple [] ∧
  ∃ call, ArtifactoryApi.wire
            (ArtifactoryLDAP._getConfigRecordListFromArtifactory s).2
          = ArtifactoryApi.wire s ++ [call] ∧
          ArtifactoryApi.sent_method call = "GET" ∧
          ArtifactoryApi.sent_url call
          = (ArtifactoryApi.baseUrl (ArtifactoryApi.self s) ++ "getLdapSettingsList")%string.
Proof.
  intros s.
  refine (ldap_listing_returns_no_record s
            (ArtifactoryLDAP._getConfigRecordListFromArtifactory s).2
            (ArtifactoryApi.PyTuple []) _).
  vm_compute. reflexivity.
Defined.

(** ** A server that already holds the desired records *)

Section Converged.
Variables (items h0 : list dict).
Hypothesis Hitems : Forall keyed items.
Hypothesis Hdistinct : NoDup (lower_key <$> items).
Hypothesis Hnd : NoDup h0.
Hypothesis Hlisted : ∀ d, d ∈ h0 → d ∈ items.

Lemma for_fold_app {Σ A B} (body : A → B → M Σ B) (l1 l2 : list A) (b : B) (σ : Σ) :
  for_fold body (l1 ++ l2) b σ = bind (for_fold body l1 b) (for_fold body l2) σ.
Proof.
  revert b σ. induction l1 as [|x l1 IH]; intros b σ; simpl; [reflexivity|].
  unfold bind in *. destruct (body x b σ) as [[e|b'] σ']; [done|]. apply IH.
Qed.

Lemma remove_first_finds {A} (p : A → bool) (l : list A) (x : A) :
  x ∈ l → p x = true → ∃ l', remove_first p l = Some l'.
Proof.
  intros Hin Hp. induction l as [|y l IH]; [by apply elem_of_nil in Hin|]. simpl.
  destruct (p y) eqn:Hy; [eauto|].
  apply elem_of_cons in Hin as [->|Hin]; [congruence|].
  destruct (IH Hin) as [l' ->]. simpl. eauto.
Qed.

Lemma keyed_listed (i : nat) (d : dict) : h0 !! i = Some d → d ∈ items ∧ keyed d.
Proof.
  intros Hi. assert (d ∈ items) as Hin by (by eapply Hlisted, list_elem_of_lookup_2).
  split; [done|]. by apply (proj1 (Forall_forall _ _) Hitems).
Qed.

Lemma sort_item_skips (i : nat) (d item : dict) (p : parts) :
  h0 !! i = Some d → item ∈ items → lower_key item ≠ lower_key d →
  sort_item i item p h0 = (inr p, h0).
Proof.
  intros Hi Hin Hne. destruct (keyed_listed i d Hi) as [_ [kd Hkd]].
  destruct (proj1 (Forall_forall _ _) Hitems item Hin) as [ki Hki].
  unfold sort_item, bind, get, lift, ret. simpl. rewrite Hi. simpl.
  unfold getitem. rewrite Hki, Hkd. simpl.
  rewrite (keyed_lower_key item ki), (keyed_lower_key d kd) in Hne by done.
  apply String.eqb_neq in Hne. by rewrite Hne.
Qed.

Lemma turn_skips (i : nat) (d : dict) (l : list dict) (p : parts) :
  h0 !! i = Some d →
  Forall (λ x, x ∈ items ∧ lower_key x ≠ lower_key d) l →
  for_fold (sort_item i) l p h0 = (inr p, h0).
Proof.
  intros Hi. induction 1 as [|x l [Hin Hne] _ IH]; [reflexivity|]. simpl.
  erewrite bind_inr; [|by eapply sort_item_skips]. exact IH.
Qed.

Lemma not_before (i : nat) (d : dict) : h0 !! i = Some d → d ∉ take i h0.
Proof.
  intros Hi Hin. apply list_elem_of_lookup_1 in Hin as [j Hj].
  apply lookup_take_Some in Hj as [Hj Hlt].
  assert (j = i) by (by eapply NoDup_lookup). lia.
Qed.

Lemma sort_item_matches (i : nat) (d : dict) (p : parts) :
  h0 !! i = Some d → matched_up_to items h0 i p →
  ∃ p', sort_item i d p h0 = (inr p', h0) ∧ matched_up_to items h0 (Datatypes.S i) p'.
Proof.
  intros Hi (Hoa & Hib & Hart). destruct (keyed_listed i d Hi) as [Hin [kd Hkd]].
  pose proof (lookup_lt_Some _ _ _ Hi) as Hlt.
  destruct (remove_first_finds (λ x, bool_decide (x = d)) (onlyInArtifactory p) d)
    as [art' Hrm]; [by apply Hart, not_before|by apply bool_decide_eq_true_2|].
  exists (Parts (seq (Datatypes.S i) (length h0 - Datatypes.S i)) (inBoth p ++ [i]) art').
  split.
  - unfold sort_item, bind, get, lift, put, raise, ret. simpl. rewrite Hi. simpl.
    unfold getitem. rewrite Hkd. simpl. rewrite String.eqb_refl.
    rewrite Hoa. replace (length h0 - i) with (Datatypes.S (length h0 - Datatypes.S i)) by lia.
    simpl. rewrite bool_decide_eq_true_2 by done. simpl.
    rewrite insert_id by done. rewrite Hrm. simpl. by rewrite list_insert_id.
  - split_and!; cbn [onlyInArgs inBoth onlyInArtifactory].
    + done.
    + by rewrite Hib, seq_S.
    + intros x Hx Hout. rewrite (take_S_r _ _ d) in Hout by done.
      apply not_elem_of_app in Hout as [Hout Hne].
      apply remove_first_split in Hrm as (a1 & y & a2 & Hsplit & -> & Hy).
      apply bool_decide_eq_true_1 in Hy. subst y.
      specialize (Hart x Hx Hout). rewrite Hsplit in Hart.
      apply elem_of_app in Hart as [?|Hart]; [apply elem_of_app; by left|].
      apply elem_of_cons in Hart as [->|?]; [|apply elem_of_app; by right].
      destruct Hne. by left.
Qed.

Lemma turn_runs (i : nat) (d : dict) (p : parts) :
  h0 !! i = Some d → matched_up_to items h0 i p →
  ∃ p', for_fold (sort_item i) items p h0 = (inr p', h0) ∧
        matched_up_to items h0 (Datatypes.S i) p'.
Proof.
  intros Hi Hp. destruct (sort_item_matches i d p Hi Hp) as (p' & Hstep & Hp').
  exists p'. split; [|done].
  destruct (keyed_listed i d Hi) as [Hin _].
  destruct (list_elem_of_split _ _ Hin) as (l1 & l2 & Hsplit).
  assert (Forall (λ x, x ∈ items ∧ lower_key x ≠ lower_key d) l1 ∧
          Forall (λ x, x ∈ items ∧ lower_key x ≠ lower_key d) l2) as [Hl1 Hl2].
  { pose proof Hdistinct as Hd. rewrite Hsplit, fmap_app, fmap_cons in Hd.
    apply NoDup_app in Hd as (_ & Hcross & Hd). apply NoDup_cons in Hd as [Hout _].
    split; apply Forall_forall; intros x Hx.
    - split; [rewrite Hsplit; apply elem_of_app; by left|].
      intros Heq. apply (Hcross (lower_key x)); [by apply list_elem_of_fmap_2|].
      rewrite Heq. by left.
    - split; [rewrite Hsplit; apply elem_of_app; right; by right|].
      intros Heq. apply Hout. rewrite <-Heq. by apply list_elem_of_fmap_2. }
  rewrite Hsplit. rewrite for_fold_app.
  erewrite bind_inr; [|by eapply turn_skips]. simpl.
  erewrite bind_inr; [|exact Hstep]. by eapply turn_skips.
Qed.

Lemma turns_run (k : nat) :
  ∀ (i : nat) (p : parts),
    i + k = length h0 → matched_up_to items h0 i p →
    ∃ p', for_fold (λ i p, for_fold (sort_item i) items p) (seq i k) p h0 = (inr p', h0) ∧
          matched_up_to items h0 (i + k) p'.
Proof.
  induction k as [|k IH]; intros i p Hlen Hp; simpl.
  - exists p. by rewrite Nat.add_0_r.
  - destruct (lookup_lt_is_Some_2 h0 i) as [d Hi]; [lia|].
    destruct (turn_runs i d p Hi Hp) as (p1 & Hturn & Hp1).
    destruct (IH (Datatypes.S i) p1) as (p' & Hrest & Hp'); [lia|done|].
    exists p'. split.
    + by erewrite bind_inr.
    + by rewrite Nat.add_succ_r.
Qed.

(** Sorting against a listing that holds every desired record: the
    records all end in [inBoth], in their order, and are not touched. *)
Lemma sort_converged :
  ∃ p, sort_repositories items h0 = (inr p, h0) ∧
       onlyInArgs p = [] ∧ inBoth p = seq 0 (length h0).
Proof.
  destruct (turns_run (length h0) 0 (Parts (seq 0 (length h0)) [] items))
    as (p & Hsort & Hoa & Hib & _); [done| |].
  - split_and!; simpl; [by rewrite Nat.sub_0_r|done..].
  - exists p. split_and!; [done| |done].
    rewrite Hoa. simpl. by rewrite Nat.sub_diag.
Qed.

End Converged.

Section ConvergedRun.
Context {S : Type} `{Remote S}.

(** One turn of the update loop on a record the server already holds. *)
Lemma update_step_contained check cfg ref n (w : world S) d current k :
  heap w !! ref = Some d → d !! "key" = Some (VStr k) →
  get_repository (cfg_uriParams cfg) k (remote w) = UriOk current → d ⊆ current →
  update_repository check cfg ref n w
  = (inr n, World (heap w) (remote w) (calls w ++ [GetRepository k])).
Proof.
  intros Hd Hk Hget Hsub. unfold update_repository.
  erewrite bind_inr; [|by apply deref_key_at].
  unfold bind, lift, uri_read. rewrite (url_key_keyed d k Hk). simpl. rewrite Hget.
  rewrite bool_decide_eq_false_2; [done|].
  intros Hne. apply Hne. by apply map_subseteq_union.
Qed.

Lemma update_loop_contained check cfg (server : S) (ds : list dict) (keys : list string) :
  Forall2 (λ d k, d !! "key" = Some (VStr k) ∧
                  ∃ current, get_repository (cfg_uriParams cfg) k server = UriOk current ∧
                             d ⊆ current) ds keys →
  ∀ (i n : nat) (w : world S),
    remote w = server →
    (∀ j d, ds !! j = Some d → heap w !! (i + j) = Some d) →
    for_fold (update_repository check cfg) (seq i (length ds)) n w
    = (inr n, World (heap w) (remote w) (calls w ++ (GetRepository <$> keys))).
Proof.
  induction 1 as [|d k ds keys (Hk & current & Hget & Hsub) _ IH];
    intros i n w Hremote Hheap; simpl.
  - rewrite app_nil_r. by destruct w.
  - assert (heap w !! i = Some d) as Hd.
    { specialize (Hheap 0 d eq_refl). by rewrite Nat.add_0_r in Hheap. }
    erewrite bind_inr.
    2:{ eapply update_step_contained; [done..| |done]. by rewrite Hremote. }
    rewrite IH; simpl.
    + by rewrite <-(assoc_L (++)).
    + done.
    + intros j d' Hj. specialize (Hheap (Datatypes.S j) d' Hj).
      by rewrite Nat.add_succ_r in Hheap.
Qed.

(** X25: a server that already holds the desired records is left alone.
    With target state Present, when the listing shows every desired
    record as the caller wrote it, the listed keys differ even up to case
    and what the server shows under the key of each desired record
    contains the record, the run reports no change in either mode, sends
    the listing and one GET for each desired record, in order, and no
    write; the records and the server are as they were. *)
Theorem converged_server_is_left_alone (check_mode : bool) (args : task_args)
    (parent_warning : arg (list string)) (server : S) (cfg : config)
    (items : list dict) (keys : list string) :
  prepare args parent_warning = inr cfg →
  cfg_state cfg = "present" →
  list_repositories (cfg_uriParams cfg) server = UriOk items →
  Forall keyed items →
  NoDup (lower_key <$> items) →
  Forall2 (λ d k, d !! "key" = Some (VStr k) ∧
                  ∃ current, get_repository (cfg_uriParams cfg) k server = UriOk current ∧
                             d ⊆ current) (cfg_repository_configs cfg) keys →
  (∀ d, d ∈ cfg_repository_configs cfg → d ∈ items) →
  run check_mode args parent_warning (start args server)
  = (inr {| warning := cfg_warning cfg; msg := "No repositories changed"; changed := false |},
     World (cfg_repository_configs cfg) server
       (ListRepositories :: (GetRepository <$> keys))).
Proof.
  intros Hp Hstate Hlist Hitems Hdistinct Hkeys Hlisted.
  pose proof (prepare_returns _ _ _ Hp)
    as (configs & base & hd & Hargs & _ & Hunique & _ & _ & _ & _ & _ & Hcfg & _).
  rewrite Hcfg in *.
  assert (start args server = World configs server []) as ->.
  { unfold start. by rewrite Hargs. }
  assert (NoDup configs) as Hnd.
  { eapply (NoDup_fmap_1 lower_key). apply unique_keys_distinct; [|done].
    apply Forall_forall. intros d Hd.
    by apply (proj1 (Forall_forall _ _) Hitems), Hlisted. }
  destruct (sort_converged items configs Hitems Hdistinct Hnd Hlisted)
    as (p & Hsort & Hoa & Hib).
  rewrite (run_prepared _ _ _ _ cfg) by done.
  change {| warning := cfg_warning cfg; msg := "No repositories changed"; changed := false |}
    with (report cfg (Counts 0 0 0)).
  erewrite bind_inr; [reflexivity|].
  unfold reconcile.
  erewrite bind_inr; [|unfold uri_read; simpl; rewrite Hlist; reflexivity].
  cbv beta iota.
  erewrite (bind_inr (on_heap _)); [|unfold on_heap; cbn [heap]; rewrite Hsort; reflexivity].
  erewrite bind_inr.
  2:{ unfold add_repositories. rewrite Hoa. simpl. rewrite andb_false_r. reflexivity. }
  erewrite bind_inr.
  2:{ unfold update_repositories. rewrite Hib.
      instantiate (1 := World configs server ([ListRepositories] ++ (GetRepository <$> keys))).
      instantiate (1 := 0).
      destruct (is_present_or_prune cfg && nonempty (seq 0 (length configs))) eqn:Hgo.
      - by rewrite (update_loop_contained check_mode cfg server configs keys Hkeys 0 0).
      - unfold is_present_or_prune in Hgo. rewrite Hstate in Hgo. simpl in Hgo.
        destruct configs; [|done]. apply Forall2_nil_inv_l in Hkeys as ->.
        reflexivity. }
  erewrite bind_inr; [|by apply delete_repositories_present].
  reflexivity.
Qed.

End ConvergedRun.

Lemma converged_server_is_left_alone_witness :
  let desired := [Examples.repo "libs"; Examples.repo "tools"] in
  let args := Examples.task desired "Present" in
  let server : Store.store :=
    [("tools", Examples.repo "tools"); ("old", Examples.repo "old");
     ("libs", Examples.repo "libs")] in
  run false args (Given []) (start args server)
  = (inr Examples.unchanged,
     World desired server [ListRepositories; GetRepository "libs"; GetRepository "tools"]).
Proof.
  intros desired args server.
  refine (converged_server_is_left_alone false args (Given []) server
            (Examples.prepared desired "present")
            (Store.shown <$> server) ["libs"; "tools"] _ _ _ _ _ _ _).
  - vm_compute. reflexivity.
  - reflexivity.
  - reflexivity.
  - repeat constructor; eexists; vm_compute; reflexivity.
  - vm_compute. repeat constructor; intros Hin;
      repeat (apply elem_of_cons in Hin as [Hin|Hin]; [discriminate|]);
      by apply elem_of_nil in Hin.
  - repeat constructor; eexists; (split; [vm_compute; reflexivity|done]).
  - intros d Hd. apply elem_of_cons in Hd as [->|Hd].
    { apply (list_elem_of_lookup_2 _ 2). vm_compute. reflexivity. }
    apply elem_of_cons in Hd as [->|Hd].
    { apply (list_elem_of_lookup_2 _ 0). vm_compute. reflexivity. }
    by apply elem_of_nil in Hd.
Defined.
